(** * Storage failover services of the music player: monitor, health checker, backup manager

    A shallow embedding of [services/storage_monitor.py],
    [services/storage_health_checker.py] and [services/backup_manager.py].

    Modelling conventions.
    - The operating system is an explicit observation record ([os_state]):
      what [os.path.exists], [os.access], [shutil.disk_usage],
      [psutil.disk_partitions] and [Path.resolve] answer, including the
      calls that raise.
    - Python floats are idealised as rationals ([Q]); [round(x, n)] is
      round-half-to-even on the exact value.
    - The sqlite tables are lists of rows in rowid order.  The writes of the
      monitor and of the health checker ([storage_events],
      [storage_status], [storage_health_checks], [storage_alerts]) can be
      refused: [os_sqlite_write] says what sqlite answers to a write
      transaction on a table, and the handlers that log the error and go on
      are represented.  The catalog database of the backup manager ([songs],
      [backup_sync_log]) is taken to accept every statement;
      [backup_sync_log] is created outside these services and is taken to
      exist.  Reads are taken to succeed.
    - The string enumerations of the source (['primary'], ['fallback'],
      ['healthy'], ...) are inductive types; strings coming from a caller
      (the switch target, the storage type of a health check) stay strings. *)

From Stdlib Require Import ZArith QArith Qround Ascii.
From stdpp Require Import base strings pretty list gmap sorting.

Open Scope string_scope.
Open Scope list_scope.
Open Scope Z_scope.

(** ** Shared vocabulary *)

(** Result of a call that may raise; the message is [str(e)]. *)
Inductive os_result (A : Type) : Type :=
| Returns (a : A)
| Raises (msg : string).
Arguments Returns {A} a.
Arguments Raises {A} msg.

(** [shutil.disk_usage(path)]: total and free bytes (the [used] field of the
    named tuple is never read by the services). *)
Record disk_usage := { du_total : Z; du_free : Z }.

Record os_state := {
  os_exists : string -> bool;                      (* os.path.exists *)
  os_readable : string -> bool;                    (* os.access(p, R_OK) *)
  os_writable : string -> bool;                    (* os.access(p, W_OK) *)
  os_disk_usage : string -> os_result disk_usage;  (* shutil.disk_usage *)
  os_mountpoints : os_result (list string);        (* psutil.disk_partitions *)
  os_resolve : string -> os_result (list string);  (* Path(p).resolve() followed by its parents *)
  os_sqlite_write : string -> os_result unit       (* a write transaction on the named table *)
}.

(** [os.access(path, os.R_OK | os.W_OK)] *)
Definition os_access_rw (os : os_state) (path : string) : bool :=
  os_readable os path && os_writable os path.

Inductive health := healthy | warning | error.
Inductive storage_kind := primary | fallback.

Global Instance health_eq_dec : EqDecision health.
Proof. solve_decision. Defined.
Global Instance storage_kind_eq_dec : EqDecision storage_kind.
Proof. solve_decision. Defined.

Definition kind_name (k : storage_kind) : string :=
  match k with primary => "primary" | fallback => "fallback" end.

(** [name.title()] on the two storage names *)
Definition kind_title (k : storage_kind) : string :=
  match k with primary => "Primary" | fallback => "Fallback" end.

(** Membership test [s in ['primary', 'fallback']], returning the matched name. *)
Definition parse_kind (s : string) : option storage_kind :=
  if String.eqb s "primary" then Some primary
  else if String.eqb s "fallback" then Some fallback
  else None.

(** ** Rational arithmetic standing for the float computations *)

Definition Qltb (x y : Q) : bool := negb (Qle_bool y x).

Definition round_half_even (x : Q) : Z :=
  let f := Qfloor x in
  match Qcompare (x - inject_Z f) (1 # 2) with
  | Lt => f
  | Gt => f + 1
  | Eq => if Z.even f then f else f + 1
  end.

(** Python's [round(x, ndigits)] *)
Definition py_round (x : Q) (ndigits : nat) : Q :=
  let scale := inject_Z (10 ^ Z.of_nat ndigits) in
  (inject_Z (round_half_even (x * scale)) / scale)%Q.

(** [n / (1024**3)] *)
Definition gib (n : Z) : Q := (inject_Z n / inject_Z (1024 ^ 3))%Q.

Record config := {
  SYNCED_FOLDER : string;
  BACKUP_FOLDER : string;
  STORAGE_WARNING_THRESHOLD : Q
}.

Definition default_config : config :=
  {| SYNCED_FOLDER := "/media/ssd/synced";
     BACKUP_FOLDER := "/home/pi/music_backup";
     STORAGE_WARNING_THRESHOLD := 9 # 10 |}.

(** ** What Python sees of a one-row query result *)

(** A value of a result column: an integer or NULL. *)
Inductive sql_value := sql_int (n : Z) | sql_null.

(** [COUNT( * )] *)
Definition sql_count {A} (rows : list A) : sql_value :=
  sql_int (Z.of_nat (length rows)).

(** [SUM(CASE WHEN c THEN 1 ELSE 0 END)]: the sum over no row is NULL. *)
Definition sql_sum_case {A} (c : A -> bool) (rows : list A) : sql_value :=
  match rows with
  | [] => sql_null
  | _ => sql_int (Z.of_nat (length (filter (fun r => c r = true) rows)))
  end.

(** [cursor.fetchone()]: a [sqlite3.Row], which knows the names of its
    columns, when the connection has [row_factory = sqlite3.Row]; a plain
    tuple of the values otherwise. *)
Inductive fetched :=
| fetched_Row (columns : list (string * sql_value))
| fetched_tuple (values : list sql_value).

Definition fetchone (row_factory : bool) (columns : list (string * sql_value)) : fetched :=
  if row_factory then fetched_Row columns else fetched_tuple (snd <$> columns).

(** [dict(row)].  A [Row] has [keys()] and becomes the dict of its columns;
    a tuple is iterated as a sequence of key/value pairs, and its first
    element, a number or [None], is not a sequence. *)
Definition py_dict (row : fetched) : os_result (list (string * sql_value)) :=
  match row with
  | fetched_Row columns => Returns columns
  | fetched_tuple [] => Returns []
  | fetched_tuple (_ :: _) =>
    Raises "cannot convert dictionary update sequence element #0 to a sequence"
  end.

(** ** services/storage_monitor.py *)
Module StorageMonitor.

Record storage_info := {
  path : string;
  is_available : bool;
  is_mounted : bool;
  capacity_gb : Q;
  used_gb : Q;
  free_gb : Q;
  usage_percent : Q;
  health_status : health;
  info_error : option string
}.

Definition _is_path_mounted (os : os_state) (p : string) : bool :=
  match os_mountpoints os with
  | Raises _ => false
  | Returns mount_points =>
    match os_resolve os p with
    | Raises _ => false
    | Returns chain =>
      if existsb (fun parent => bool_decide (parent ∈ mount_points)) chain
      then true
      else os_exists os p && os_readable os p
    end
  end.

Definition get_storage_info (os : os_state) (warning_threshold : Q) (p : string)
  : option storage_info :=
  if negb (os_exists os p) then None
  else match os_disk_usage os p with
  | Raises e =>
    Some {| path := p; is_available := false; is_mounted := false;
            capacity_gb := 0; used_gb := 0; free_gb := 0; usage_percent := 0;
            health_status := error; info_error := Some e |}
  | Returns usage =>
    let total_gb := gib (du_total usage) in
    let free := gib (du_free usage) in
    let used := gib (du_total usage - du_free usage) in
    let mounted := _is_path_mounted os p in
    let ratio := if Qltb 0 total_gb then (used / total_gb)%Q else 0%Q in
    let status :=
      if Qle_bool warning_threshold ratio then warning
      else if negb mounted then error
      else healthy in
    Some {| path := p;
            is_available := mounted && os_access_rw os p;
            is_mounted := mounted;
            capacity_gb := py_round total_gb 2;
            used_gb := py_round used 2;
            free_gb := py_round free 2;
            usage_percent := py_round (ratio * 100) 1;
            health_status := status;
            info_error := None |}
  end.

(** Truth value of [info and info['is_available']] *)
Definition available (info : option storage_info) : bool :=
  match info with
  | Some i => is_available i
  | None => false
  end.

Record storage_event := {
  event_type : string;
  storage_type : string;
  message : string
}.

(** A row of [storage_status] (the columns [_update_storage_status] writes) *)
Record status_row := {
  row_available : bool;
  row_capacity_gb : Q;
  row_used_gb : Q;
  row_free_gb : Q;
  row_health : option health
}.

Definition initial_row : status_row :=
  {| row_available := false; row_capacity_gb := 0; row_used_gb := 0;
     row_free_gb := 0; row_health := None |}.

Record monitor := {
  primary_path : string;
  fallback_path : string;
  warning_threshold : Q;
  current_storage : storage_kind;
  storage_events : list storage_event;
  status_primary : status_row;
  status_fallback : status_row
}.

Record health_check := {
  hc_primary : option storage_info;
  hc_fallback : option storage_info;
  hc_current_storage : storage_kind;
  recommended_storage : option storage_kind;
  should_switch : bool;
  overall_health : health
}.

Definition _get_overall_health (primary_info fallback_info : option storage_info) : health :=
  match primary_info, fallback_info with
  | Some p, Some f =>
    let primary_healthy := is_available p && negb (bool_decide (health_status p = error)) in
    let fallback_healthy := is_available f && negb (bool_decide (health_status f = error)) in
    if primary_healthy && fallback_healthy then healthy
    else if primary_healthy || fallback_healthy then warning
    else error
  | _, _ => error
  end.

(** The decision part of [check_storage_health], on two probe results. *)
Definition decide_switch (current : storage_kind)
    (primary_info fallback_info : option storage_info) : bool :=
  match current with
  | primary =>
    if negb (available primary_info) then
      (if available fallback_info then true else false)
    else false
  | fallback =>
    if available primary_info then true else false
  end.

Definition check_storage_health (os : os_state) (m : monitor) : health_check :=
  let primary_info := get_storage_info os (warning_threshold m) (primary_path m) in
  let fallback_info := get_storage_info os (warning_threshold m) (fallback_path m) in
  let recommended :=
    if available primary_info then Some primary
    else if available fallback_info then Some fallback
    else None in
  {| hc_primary := primary_info;
     hc_fallback := fallback_info;
     hc_current_storage := current_storage m;
     recommended_storage := recommended;
     should_switch := decide_switch (current_storage m) primary_info fallback_info;
     overall_health := _get_overall_health primary_info fallback_info |}.

(** [health_check[target_storage]] *)
Definition hc_lookup (hc : health_check) (k : storage_kind) : option storage_info :=
  match k with primary => hc_primary hc | fallback => hc_fallback hc end.

(** The INSERT is tried; an sqlite error is logged and swallowed, and the
    row is then missing. *)
Definition _log_storage_event (os : os_state) (m : monitor)
    (ev_type : string) (st : string) (msg : string) : monitor :=
  match os_sqlite_write os "storage_events" with
  | Raises _ => m
  | Returns _ =>
    {| primary_path := primary_path m; fallback_path := fallback_path m;
       warning_threshold := warning_threshold m;
       current_storage := current_storage m;
       storage_events := storage_events m ++
         [{| event_type := ev_type; storage_type := st; message := msg |}];
       status_primary := status_primary m; status_fallback := status_fallback m |}
  end.

Definition row_of_info (i : storage_info) : status_row :=
  {| row_available := is_available i; row_capacity_gb := capacity_gb i;
     row_used_gb := used_gb i; row_free_gb := free_gb i;
     row_health := Some (health_status i) |}.

(** The two UPDATEs are one transaction; an sqlite error is logged and
    swallowed, and both rows are then left as they were. *)
Definition _update_storage_status (os : os_state) (m : monitor) : monitor :=
  let hc := check_storage_health os m in
  match os_sqlite_write os "storage_status" with
  | Raises _ => m
  | Returns _ =>
    {| primary_path := primary_path m; fallback_path := fallback_path m;
       warning_threshold := warning_threshold m;
       current_storage := current_storage m;
       storage_events := storage_events m;
       status_primary :=
         match hc_primary hc with Some i => row_of_info i | None => status_primary m end;
       status_fallback :=
         match hc_fallback hc with Some i => row_of_info i | None => status_fallback m end |}
  end.

Definition set_current_storage (m : monitor) (k : storage_kind) : monitor :=
  {| primary_path := primary_path m; fallback_path := fallback_path m;
     warning_threshold := warning_threshold m;
     current_storage := k;
     storage_events := storage_events m;
     status_primary := status_primary m; status_fallback := status_fallback m |}.

Inductive switch_result :=
| SwitchDone (msg : string) (old_storage new_storage : storage_kind)
| SwitchFailed (err : string).

Definition success (r : switch_result) : bool :=
  match r with SwitchDone _ _ _ => true | SwitchFailed _ => false end.

Definition switch_storage (os : os_state) (m : monitor) (target_storage : string)
  : switch_result * monitor :=
  match parse_kind target_storage with
  | None => (SwitchFailed "Invalid storage type", m)
  | Some target =>
    let hc := check_storage_health os m in
    let target_info := hc_lookup hc target in
    if negb (available target_info) then
      (SwitchFailed (kind_title target ++ " storage is not available"), m)
    else
      let old_storage := current_storage m in
      let m1 := set_current_storage m target in
      let m2 := _log_storage_event os m1 "switch" (kind_name target)
                  ("Switched from " ++ kind_name old_storage ++ " to " ++ kind_name target) in
      let m3 := _update_storage_status os m2 in
      (SwitchDone ("Switched to " ++ kind_name target ++ " storage") old_storage target, m3)
  end.

Definition auto_switch_storage (os : os_state) (m : monitor)
  : option switch_result * monitor :=
  let hc := check_storage_health os m in
  if should_switch hc then
    match recommended_storage hc with
    | Some recommended =>
      let '(r, m') := switch_storage os m (kind_name recommended) in (Some r, m')
    | None => (None, m)
    end
  else (None, m).

(** One pass of [_monitor_loop]: refresh the persisted snapshot, then switch
    if needed (the sleep between passes is not represented). *)
Definition monitor_iteration (os : os_state) (m : monitor)
  : option switch_result * monitor :=
  auto_switch_storage os (_update_storage_status os m).

(** [force_storage_check] *)
Definition force_storage_check (os : os_state) (m : monitor) : health_check * monitor :=
  let m1 := _update_storage_status os m in
  (check_storage_health os m1, m1).

Inductive issue_severity := issue_critical | issue_warning.

Global Instance issue_severity_eq_dec : EqDecision issue_severity.
Proof. solve_decision. Defined.

(** The issue texts of [detect_storage_issues], the formatted percentage
    kept as a value. *)
Inductive issue_text :=
| StorageNotAccessible
| DiskSpaceCriticallyLow (pct : Q)
| DiskSpaceLow (pct : Q)
| StorageNotAvailableIssue
| StorageHealthCheckFailed
| StorageHealthIssues
| BothStoragesCritical.

Record issue := {
  issue_storage : string;
  issue_sev : issue_severity;
  issue_what : issue_text;
  issue_recommendation : string
}.

(** The body of the loop of [detect_storage_issues] for one endpoint. *)
Definition issues_of_endpoint (os : os_state) (m : monitor) (k : storage_kind) : list issue :=
  let storage_type := kind_name k in
  let p := match k with primary => primary_path m | fallback => fallback_path m end in
  match get_storage_info os (warning_threshold m) p with
  | None =>
    [{| issue_storage := storage_type; issue_sev := issue_critical;
        issue_what := StorageNotAccessible;
        issue_recommendation :=
          "Check " ++ storage_type ++ " storage connection and mount status" |}]
  | Some storage_info =>
    (if Qle_bool 95 (usage_percent storage_info) then
       [{| issue_storage := storage_type; issue_sev := issue_critical;
           issue_what := DiskSpaceCriticallyLow (usage_percent storage_info);
           issue_recommendation :=
             "Free up disk space immediately or add more storage" |}]
     else if Qle_bool 90 (usage_percent storage_info) then
       [{| issue_storage := storage_type; issue_sev := issue_warning;
           issue_what := DiskSpaceLow (usage_percent storage_info);
           issue_recommendation :=
             "Consider freeing up disk space or adding more storage" |}]
     else []) ++
    (if negb (is_available storage_info) then
       [{| issue_storage := storage_type; issue_sev := issue_critical;
           issue_what := StorageNotAvailableIssue;
           issue_recommendation :=
             "Check " ++ storage_type ++ " storage connection and permissions" |}]
     else []) ++
    match health_status storage_info with
    | error =>
      [{| issue_storage := storage_type; issue_sev := issue_critical;
          issue_what := StorageHealthCheckFailed;
          issue_recommendation :=
            "Run diagnostic on " ++ storage_type ++ " storage device" |}]
    | warning =>
      [{| issue_storage := storage_type; issue_sev := issue_warning;
          issue_what := StorageHealthIssues;
          issue_recommendation :=
            "Monitor " ++ storage_type ++ " storage closely and consider replacement" |}]
    | healthy => []
    end
  end.

(** [detect_storage_issues].  Nothing in the body can raise on the results
    of [get_storage_info], so the handler of the source is not reached. *)
Definition detect_storage_issues (os : os_state) (m : monitor) : list issue :=
  let issues := issues_of_endpoint os m primary ++ issues_of_endpoint os m fallback in
  let critical_issues := filter (fun i => issue_sev i = issue_critical) issues in
  if (2 <=? length critical_issues)%nat then
    issues ++
    [{| issue_storage := "system"; issue_sev := issue_critical;
        issue_what := BothStoragesCritical;
        issue_recommendation := "Immediate attention required - system may fail" |}]
  else issues.

Inductive recommendation_text :=
| PrimaryFull (pct : Q)
| RunningOnFallback
| FallbackFull (pct : Q)
| HealthIssuesDetected.

Record recommendation := {
  rec_type : string;
  rec_priority : string;
  rec_title : string;
  rec_description : recommendation_text;
  rec_actions : list string
}.

Definition rec_optimization (pct : Q) : recommendation :=
  {| rec_type := "optimization"; rec_priority := "medium";
     rec_title := "Primary storage optimization";
     rec_description := PrimaryFull pct;
     rec_actions := ["Clean up old or unused music files";
                     "Move less frequently played songs to archive";
                     "Consider upgrading to larger SSD"] |}.

Definition rec_failover : recommendation :=
  {| rec_type := "failover"; rec_priority := "high";
     rec_title := "Primary storage unavailable";
     rec_description := RunningOnFallback;
     rec_actions := ["Check SSD connection and power";
                     "Verify SSD mount status";
                     "Consider SSD replacement if hardware failure detected"] |}.

Definition rec_maintenance (pct : Q) : recommendation :=
  {| rec_type := "maintenance"; rec_priority := "medium";
     rec_title := "Fallback storage cleanup needed";
     rec_description := FallbackFull pct;
     rec_actions := ["Clean up old backup files";
                     "Optimize backup song selection";
                     "Consider larger SD card for fallback storage"] |}.

Definition rec_monitoring : recommendation :=
  {| rec_type := "monitoring"; rec_priority := "medium";
     rec_title := "Increase monitoring frequency";
     rec_description := HealthIssuesDetected;
     rec_actions := ["Enable more frequent health checks";
                     "Set up automated alerts for storage issues";
                     "Review storage performance metrics"] |}.

(** The part of [get_storage_recommendations] that analyses the primary
    endpoint.  [health_check['fallback']['is_available']] is evaluated only
    when the primary endpoint is unavailable, and raises [TypeError] when
    the fallback probe returned [None]. *)
Definition primary_recommendations (hc : health_check) : os_result (list recommendation) :=
  match hc_primary hc with
  | None => Returns []
  | Some p =>
    let space := if Qltb 80 (usage_percent p) then [rec_optimization (usage_percent p)]
                 else [] in
    if negb (is_available p) then
      match hc_fallback hc with
      | None => Raises "'NoneType' object is not subscriptable"
      | Some f => Returns (space ++ (if is_available f then [rec_failover] else []))
      end
    else Returns space
  end.

Definition get_storage_recommendations (os : os_state) (m : monitor) : list recommendation :=
  let hc := check_storage_health os m in
  match primary_recommendations hc with
  | Raises _ => []
  | Returns from_primary =>
    from_primary ++
    match hc_fallback hc with
    | Some f => if Qltb 90 (usage_percent f) then [rec_maintenance (usage_percent f)] else []
    | None => []
    end ++
    (if bool_decide (overall_health hc = warning) then [rec_monitoring] else [])
  end.

Record storage_metrics := {
  metrics_current_storage : storage_kind;
  metrics_overall_health : health;
  metrics_primary_storage : option storage_info;
  metrics_fallback_storage : option storage_info;
  event_stats : list (string * sql_value);
  monitoring_active : bool
}.

(** [older] is the number of rows of [storage_events] written more than
    seven days ago (rows are in the order they were written);
    [is_monitoring] is the flag of the monitoring thread.  The connection
    sets no row factory.  [None] is the empty dict of the handler. *)
Definition get_storage_metrics (os : os_state) (m : monitor) (older : nat)
    (is_monitoring : bool) : option storage_metrics :=
  let health_check := check_storage_health os m in
  let rows := drop older (storage_events m) in
  let row :=
    fetchone false
      [("total_events", sql_count rows);
       ("switches", sql_sum_case (fun e => String.eqb (event_type e) "switch") rows);
       ("mounts", sql_sum_case (fun e => String.eqb (event_type e) "mount") rows);
       ("unmounts", sql_sum_case (fun e => String.eqb (event_type e) "unmount") rows);
       ("errors", sql_sum_case (fun e => String.eqb (event_type e) "error") rows)] in
  match py_dict row with
  | Raises _ => None
  | Returns stats =>
    Some {| metrics_current_storage := current_storage m;
            metrics_overall_health := overall_health health_check;
            metrics_primary_storage := hc_primary health_check;
            metrics_fallback_storage := hc_fallback health_check;
            event_stats := stats;
            monitoring_active := is_monitoring |}
  end.

End StorageMonitor.

(** ** services/storage_health_checker.py *)
Module StorageHealthChecker.

(** What the five diagnostics observe on a storage path: the outcome of the
    file operations they perform and the elapsed wall-clock time they
    measure, in milliseconds. *)
Record fs_probe := {
  availability_ms : Z;
  io_test : os_result unit;        (* write, fsync, read back, remove the 1 MiB test file *)
  io_ms : Z;
  space_ms : Z;
  integrity_test : os_result unit; (* mkdir, write, read, compare, remove, rmdir *)
  integrity_ms : Z;
  music_walk : os_result (Z * Z);  (* audio files found, and how many could not be opened *)
  music_ms : Z
}.

(** The keys of a check's result dict that the aggregation reads. *)
Record check_result := {
  passed : bool;
  response_time_ms : Z;
  check_error : option string;
  usage_percent : option Q;       (* only the space check, only when it did not raise *)
  inaccessible_count : option Z   (* only the music check, only when it did not raise *)
}.

Definition check_failed (ms : Z) (e : string) : check_result :=
  {| passed := false; response_time_ms := ms; check_error := Some e;
     usage_percent := None; inaccessible_count := None |}.

Definition check_plain (ok : bool) (ms : Z) : check_result :=
  {| passed := ok; response_time_ms := ms; check_error := None;
     usage_percent := None; inaccessible_count := None |}.

Definition max_io_time : Q := 5.

Definition _check_storage_availability (os : os_state) (pr : fs_probe) (storage_path : string)
  : check_result :=
  if negb (os_exists os storage_path) then
    check_failed (availability_ms pr) "Storage path does not exist"
  else if negb (os_readable os storage_path) then
    check_failed (availability_ms pr) "No read access to storage"
  else if negb (os_writable os storage_path) then
    check_failed (availability_ms pr) "No write access to storage"
  else check_plain true (availability_ms pr).

Definition _check_io_performance (pr : fs_probe) : check_result :=
  match io_test pr with
  | Raises e => check_failed (io_ms pr) e
  | Returns _ =>
    let total_time := io_ms pr in
    (* the throughput figure divides by total_time / 1000 *)
    if total_time =? 0 then check_failed (io_ms pr) "float division by zero"
    else check_plain (Qltb (inject_Z total_time) (max_io_time * 1000)) total_time
  end.

Definition _check_space_utilization (cfg : config) (os : os_state) (pr : fs_probe)
    (storage_path : string) : check_result :=
  match os_disk_usage os storage_path with
  | Raises e => check_failed (space_ms pr) e
  | Returns usage =>
    let total_gb := gib (du_total usage) in
    let used_gb := gib (du_total usage - du_free usage) in
    if Qeq_bool total_gb 0 then check_failed (space_ms pr) "float division by zero"
    else
      let pct := (used_gb / total_gb * 100)%Q in
      let threshold := (STORAGE_WARNING_THRESHOLD cfg * 100)%Q in
      {| passed := Qltb pct threshold;
         response_time_ms := space_ms pr;
         check_error := None;
         usage_percent := Some (py_round pct 1);
         inaccessible_count := None |}
  end.

Definition _check_file_system_integrity (pr : fs_probe) : check_result :=
  match integrity_test pr with
  | Raises e => check_failed (integrity_ms pr) e
  | Returns _ => check_plain true (integrity_ms pr)
  end.

Definition _check_music_files_accessibility (pr : fs_probe) : check_result :=
  match music_walk pr with
  | Raises e => check_failed (music_ms pr) e
  | Returns (total_files, inaccessible) =>
    {| passed := Qltb (inject_Z inaccessible / inject_Z (Z.max total_files 1)) (5 # 100);
       response_time_ms := music_ms pr;
       check_error := None;
       usage_percent := None;
       inaccessible_count := Some inaccessible |}
  end.

Inductive severity := sev_warning | sev_critical.

Global Instance severity_eq_dec : EqDecision severity.
Proof. solve_decision. Defined.

(** The alert texts, with the formatted number kept as a value. *)
Inductive alert_text :=
| StorageNotAvailable
| SlowIO (ms : Z)
| HighDiskUsage (pct : Q)
| IntegrityIssues
| MusicFilesInaccessible (n : Z).

Record alert := {
  alert_type : string;
  alert_severity : severity;
  alert_message : alert_text
}.

Record health_results := {
  hr_storage_type : string;
  hr_storage_path : string;
  overall_status : health;
  checks : list (string * check_result);
  alerts : list alert;
  recommendations : list string;
  hr_error : option string
}.

Definition set_status (s : health) (r : health_results) : health_results :=
  {| hr_storage_type := hr_storage_type r; hr_storage_path := hr_storage_path r;
     overall_status := s; checks := checks r; alerts := alerts r;
     recommendations := recommendations r; hr_error := hr_error r |}.

Definition add_check (name : string) (c : check_result) (r : health_results) : health_results :=
  {| hr_storage_type := hr_storage_type r; hr_storage_path := hr_storage_path r;
     overall_status := overall_status r; checks := checks r ++ [(name, c)];
     alerts := alerts r; recommendations := recommendations r; hr_error := hr_error r |}.

Definition add_alert (a : alert) (r : health_results) : health_results :=
  {| hr_storage_type := hr_storage_type r; hr_storage_path := hr_storage_path r;
     overall_status := overall_status r; checks := checks r;
     alerts := alerts r ++ [a]; recommendations := recommendations r;
     hr_error := hr_error r |}.

Definition set_recommendations (l : list string) (r : health_results) : health_results :=
  {| hr_storage_type := hr_storage_type r; hr_storage_path := hr_storage_path r;
     overall_status := overall_status r; checks := checks r; alerts := alerts r;
     recommendations := l; hr_error := hr_error r |}.

(** The [except Exception as e] handler of the aggregation. *)
Definition on_exception (e : string) (r : health_results) : health_results :=
  {| hr_storage_type := hr_storage_type r; hr_storage_path := hr_storage_path r;
     overall_status := error; checks := checks r; alerts := alerts r;
     recommendations := recommendations r; hr_error := Some e |}.

(** [health_results['checks'].get(name, {})] *)
Definition get_check (name : string) (r : health_results) : option check_result :=
  snd <$> last (filter (fun p => bool_decide (fst p = name)) (checks r)).

Definition _generate_recommendations (r : health_results) : list string :=
  let space_pct :=
    default 0%Q (get_check "space_utilization" r ≫= usage_percent) in
  let io_time :=
    default 0 (response_time_ms <$> get_check "io_performance" r) in
  let inaccessible :=
    default 0 (get_check "music_files" r ≫= inaccessible_count) in
  (if Qltb 80 space_pct then
     "Consider cleaning up old or unused music files" ::
     (if Qltb 90 space_pct then ["Urgent: Free up disk space immediately"] else [])
   else []) ++
  (if 2000 <? io_time then
     ["Storage I/O performance is slow - consider checking disk health"] else []) ++
  (if 0 <? inaccessible then
     ["Some music files are inaccessible - run file system check"] else []) ++
  match overall_status r with
  | error => ["Critical issues detected - immediate attention required"]
  | warning => ["Monitor storage closely and address warnings promptly"]
  | healthy => []
  end.

(** Rows of [storage_health_checks] and [storage_alerts]. *)
Record health_check_row := {
  hcr_storage_type : string;
  hcr_check_type : string;
  hcr_status : string;
  hcr_response_time_ms : Z;
  hcr_error_message : option string
}.

Record alert_row := {
  ar_storage_type : string;
  ar_alert : alert;
  ar_resolved : bool
}.

Record health_db := {
  storage_health_checks : list health_check_row;
  storage_alerts : list alert_row
}.

(** Whether the INSERTs of [rows] into [table] go through: nothing is
    executed for no row. *)
Definition inserts_accepted {A} (os : os_state) (table : string) (rows : list A) : bool :=
  match rows with
  | [] => true
  | _ => match os_sqlite_write os table with Returns _ => true | Raises _ => false end
  end.

(** The INSERTs of the checks and of the alerts are one transaction,
    committed at the end; an sqlite error on the way is logged and
    swallowed, and nothing is then written. *)
Definition _log_health_check_results (os : os_state) (db : health_db) (storage_type : string)
    (r : health_results) : health_db :=
  if inserts_accepted os "storage_health_checks" (checks r) &&
     inserts_accepted os "storage_alerts" (alerts r)
  then
    {| storage_health_checks := storage_health_checks db ++
         map (fun p : string * check_result =>
                {| hcr_storage_type := storage_type;
                   hcr_check_type := fst p;
                   hcr_status := if passed (snd p) then "passed" else "failed";
                   hcr_response_time_ms := response_time_ms (snd p);
                   hcr_error_message := check_error (snd p) |}) (checks r);
       storage_alerts := storage_alerts db ++
         map (fun a => {| ar_storage_type := storage_type; ar_alert := a;
                          ar_resolved := false |}) (alerts r) |}
  else db.

Inductive check_outcome :=
| InvalidStorageType
| Report (r : health_results).

(** Steps 3 and 5 read a key that a check which raised does not have; the
    lookup then raises [KeyError], which the outer handler turns into
    status [error]. *)
Definition space_step (space_result : check_result) (r : health_results)
  : os_result health_results :=
  if negb (passed space_result) then
    match usage_percent space_result with
    | None => Raises "'usage_percent'"
    | Some pct =>
      let sev := if Qltb 95 pct then sev_critical else sev_warning in
      Returns
        (add_alert {| alert_type := "space"; alert_severity := sev;
                      alert_message := HighDiskUsage pct |}
           (set_status (if bool_decide (sev = sev_warning) then warning else error) r))
    end
  else Returns r.

Definition music_step (music_files_result : check_result) (r : health_results)
  : os_result health_results :=
  if negb (passed music_files_result) then
    match inaccessible_count music_files_result with
    | None => Raises "'inaccessible_count'"
    | Some n =>
      Returns
        (add_alert {| alert_type := "music_files"; alert_severity := sev_warning;
                      alert_message := MusicFilesInaccessible n |}
           (set_status warning r))
    end
  else Returns r.

Definition perform_comprehensive_health_check (cfg : config) (os : os_state)
    (probes : string -> fs_probe) (db : health_db) (storage_type : string)
  : check_outcome * health_db :=
  match parse_kind storage_type with
  | None => (InvalidStorageType, db)
  | Some k =>
    let storage_path :=
      match k with primary => SYNCED_FOLDER cfg | fallback => BACKUP_FOLDER cfg end in
    let pr := probes storage_path in
    let r0 := {| hr_storage_type := storage_type; hr_storage_path := storage_path;
                 overall_status := healthy; checks := []; alerts := [];
                 recommendations := []; hr_error := None |} in
    (* 1. Basic availability check *)
    let availability_result := _check_storage_availability os pr storage_path in
    let r1 := add_check "availability" availability_result r0 in
    if negb (passed availability_result) then
      (Report (add_alert {| alert_type := "availability"; alert_severity := sev_critical;
                            alert_message := StorageNotAvailable |}
                 (set_status error r1)), db)
    else
    (* 2. I/O performance check *)
    let io_result := _check_io_performance pr in
    let r2 := add_check "io_performance" io_result r1 in
    let r2' :=
      if negb (passed io_result) then
        add_alert {| alert_type := "performance"; alert_severity := sev_warning;
                     alert_message := SlowIO (response_time_ms io_result) |}
          (set_status warning r2)
      else r2 in
    (* 3. Space utilization check *)
    let space_result := _check_space_utilization cfg os pr storage_path in
    let r3 := add_check "space_utilization" space_result r2' in
    match space_step space_result r3 with
    | Raises e => (Report (on_exception e r3), db)
    | Returns r3' =>
    (* 4. File system integrity check *)
    let integrity_result := _check_file_system_integrity pr in
    let r4 := add_check "file_system_integrity" integrity_result r3' in
    let r4' :=
      if negb (passed integrity_result) then
        add_alert {| alert_type := "integrity"; alert_severity := sev_critical;
                     alert_message := IntegrityIssues |}
          (set_status error r4)
      else r4 in
    (* 5. Music file accessibility check *)
    let music_files_result := _check_music_files_accessibility pr in
    let r5 := add_check "music_files" music_files_result r4' in
    match music_step music_files_result r5 with
    | Raises e => (Report (on_exception e (set_status warning r5)), db)
    | Returns r5' =>
      let r6 := set_recommendations (_generate_recommendations r5') r5' in
      (Report r6, _log_health_check_results os db storage_type r6)
    end
    end
  end.

Record health_history := {
  hh_storage_type : string;
  period_hours : Z;
  hh_health_checks : list health_check_row;
  hh_alerts : list alert_row;
  total_checks : Z;
  total_alerts : Z
}.

(** [older_checks] and [older_alerts] are the numbers of rows written before
    the cutoff (rows are in the order they were written).  [newest_first]
    stands for [ORDER BY ... DESC]; how rows of one timestamp are ordered
    is the choice of the engine. *)
Definition get_health_history (newest_first : forall A, list A -> list A)
    (db : health_db) (older_checks older_alerts : nat)
    (storage_type : string) (hours : Z) : health_history :=
  let health_checks :=
    newest_first _
      (filter (fun r => hcr_storage_type r = storage_type)
         (drop older_checks (storage_health_checks db))) in
  let alerts :=
    newest_first _
      (filter (fun r => ar_storage_type r = storage_type)
         (drop older_alerts (storage_alerts db))) in
  {| hh_storage_type := storage_type;
     period_hours := hours;
     hh_health_checks := health_checks;
     hh_alerts := alerts;
     total_checks := Z.of_nat (length health_checks);
     total_alerts := Z.of_nat (length alerts) |}.

End StorageHealthChecker.

(** ** The methods in which the monitor and the health checker call each other *)
Module Supervision.
Import StorageHealthChecker.

(** [results[storage_name] = health_result] on a dict kept as an
    association list in insertion order. *)
Fixpoint dict_set {A} (k : string) (v : A) (d : list (string * A)) : list (string * A) :=
  match d with
  | [] => [(k, v)]
  | (k', v') :: rest =>
    if String.eqb k' k then (k, v) :: rest else (k', v') :: dict_set k v rest
  end.

Inductive deep_result :=
| DeepDone (results : list (string * health_results))
| DeepFailed (err : string).

Definition status_name (h : health) : string :=
  match h with healthy => "healthy" | warning => "warning" | error => "error" end.

(** The loop of [StorageMonitor.perform_deep_health_check].  The checker is
    called with the path; when it answers with its invalid-type dict, the
    read of ['overall_status'] raises [KeyError]. *)
Fixpoint deep_check_paths (cfg : config) (os : os_state) (probes : string -> fs_probe)
    (paths : list string) (results : list (string * health_results))
    (db : health_db) (m : StorageMonitor.monitor)
  : os_result (list (string * health_results)) * health_db * StorageMonitor.monitor :=
  match paths with
  | [] => (Returns results, db, m)
  | p :: rest =>
    let storage_name :=
      if String.eqb p (StorageMonitor.primary_path m) then "primary" else "fallback" in
    let '(health_result, db1) := perform_comprehensive_health_check cfg os probes db p in
    match health_result with
    | InvalidStorageType => (Raises "'overall_status'", db1, m)
    | Report r =>
      let m1 :=
        match overall_status r with
        | healthy => m
        | st =>
          StorageMonitor._log_storage_event os m "health_issue" storage_name
            ("Health check detected " ++ status_name st ++ " status")
        end in
      deep_check_paths cfg os probes rest (dict_set storage_name r results) db1 m1
    end
  end.

(** [StorageMonitor.perform_deep_health_check] (the timestamp of the result
    is not represented). *)
Definition perform_deep_health_check (cfg : config) (os : os_state)
    (probes : string -> fs_probe) (db : health_db) (m : StorageMonitor.monitor)
    (storage_type : option string)
  : deep_result * health_db * StorageMonitor.monitor :=
  let paths_to_check :=
    match storage_type with
    | Some t =>
      if String.eqb t "primary" then [StorageMonitor.primary_path m]
      else if String.eqb t "fallback" then [StorageMonitor.fallback_path m]
      else [StorageMonitor.primary_path m; StorageMonitor.fallback_path m]
    | None => [StorageMonitor.primary_path m; StorageMonitor.fallback_path m]
    end in
  match deep_check_paths cfg os probes paths_to_check [] db m with
  | (Returns results, db', m') => (DeepDone results, db', m')
  | (Raises e, db', m') => (DeepFailed e, db', m')
  end.

(** The state the continuous monitoring of the health checker works on. *)
Record supervisor := {
  consecutive_failures : gmap string Z;
  sup_db : health_db;
  sup_monitor : StorageMonitor.monitor
}.

(** The body of the inner loop of [StorageHealthChecker._monitoring_loop]
    for one of the two storage types it iterates over. *)
Definition monitoring_step (cfg : config) (os : os_state) (probes : string -> fs_probe)
    (s : supervisor) (k : storage_kind) : supervisor :=
  let storage_type := kind_name k in
  let '(health_result, db1) :=
    perform_comprehensive_health_check cfg os probes (sup_db s) storage_type in
  match health_result with
  | InvalidStorageType => s   (* not reached: both names are valid *)
  | Report r =>
    let failures :=
      if bool_decide (overall_status r = error)
      then <[storage_type := default 0 (consecutive_failures s !! storage_type) + 1]>
             (consecutive_failures s)
      else <[storage_type := 0]> (consecutive_failures s) in
    let trigger :=
      bool_decide (k = primary) &&
      (3 <=? default 0 (failures !! storage_type)) &&
      bool_decide (StorageMonitor.current_storage (sup_monitor s) = primary) in
    {| consecutive_failures := failures;
       sup_db := db1;
       sup_monitor :=
         if trigger then snd (StorageMonitor.auto_switch_storage os (sup_monitor s))
         else sup_monitor s |}
  end.

(** One pass of [_monitoring_loop] over both storage types. *)
Definition monitoring_pass (cfg : config) (os : os_state) (probes : string -> fs_probe)
    (s : supervisor) : supervisor :=
  fold_left (monitoring_step cfg os probes) [primary; fallback] s.

Inductive history_result :=
| HistoryOf (h : health_history)
| HistoryOfBoth (of_primary of_fallback : health_history).

(** [StorageMonitor.get_storage_health_history]: the monitor hands the
    folder of the endpoint to the health checker.  [storage_type = None]
    is the default argument. *)
Definition get_storage_health_history (newest_first : forall A, list A -> list A)
    (cfg : config) (db : health_db) (older_checks older_alerts : nat)
    (storage_type : option string) (hours : Z) : history_result :=
  let history_of path :=
    get_health_history newest_first db older_checks older_alerts path hours in
  match storage_type ≫= parse_kind with
  | Some primary => HistoryOf (history_of (SYNCED_FOLDER cfg))
  | Some fallback => HistoryOf (history_of (BACKUP_FOLDER cfg))
  | None =>
    HistoryOfBoth (history_of (SYNCED_FOLDER cfg)) (history_of (BACKUP_FOLDER cfg))
  end.

End Supervision.

(** ** services/backup_manager.py *)
Module BackupManager.

Inductive location := loc_primary | loc_fallback | loc_both.

Global Instance location_eq_dec : EqDecision location.
Proof. solve_decision. Defined.

(** The columns of [songs] the backup manager reads or writes.  Timestamps
    are integers; a NULL column is [None]. *)
Record song := {
  id : Z;
  filename : string;
  filepath : string;
  play_count : Z;
  last_played : option Z;
  storage_location : location;
  fallback_path : option string;
  is_backup_synced : bool;
  backup_date : option Z;
  checksum : option string;
  is_available : bool
}.

Record log_row := {
  song_id : Z;
  action : string;
  source_path : option string;
  destination_path : option string;
  file_size : option Z;
  log_checksum : option string;
  error_message : option string
}.

(** The catalog, the files of both volumes (path to content) and the audit log. *)
Record store := {
  songs : list song;
  files : gmap string string;
  backup_sync_log : list log_row
}.

Record manager := {
  fallback_dir : string;      (* self.fallback_path *)
  max_backup_songs : Z
}.

Definition default_manager : manager :=
  {| fallback_dir := BACKUP_FOLDER default_config; max_backup_songs := 100 |}.

(** What lies outside the process: the digest function, what the fallback
    device holds after a copy (or the error raised by [os.makedirs] or
    [shutil.copy2]), what a copy that raised has left at the destination
    (nothing of its own, or the bytes written before the error), the clock
    and the space report of the fallback volume. *)
Record world := {
  md5_hexdigest : string -> string;
  copy_stored : string -> string -> os_result string;
  copy_residue : string -> string -> option string;
  current_timestamp : Z;
  fallback_usage : os_result disk_usage
}.

Fixpoint basename_from (acc s : string) : string :=
  match s with
  | EmptyString => acc
  | String c r =>
    if Ascii.eqb c "/"%char then basename_from EmptyString r
    else basename_from (acc ++ String c EmptyString)%string r
  end.

(** [os.path.basename] *)
Definition basename (s : string) : string := basename_from EmptyString s.

Fixpoint ends_with_slash (s : string) : bool :=
  match s with
  | EmptyString => false
  | String c EmptyString => Ascii.eqb c "/"%char
  | String _ r => ends_with_slash r
  end.

(** [os.path.join(a, b)] *)
Definition path_join (a b : string) : string :=
  match b with
  | String c _ =>
    if Ascii.eqb c "/"%char then b
    else if bool_decide (a = EmptyString) || ends_with_slash a then (a ++ b)%string
    else (a ++ "/" ++ b)%string
  | EmptyString =>
    if bool_decide (a = EmptyString) || ends_with_slash a then a else (a ++ "/")%string
  end.

(** [get_file_checksum]: the digest of the file, or [""] when it cannot be read. *)
Definition get_file_checksum (w : world) (fs : gmap string string) (p : string) : string :=
  match fs !! p with
  | Some content => md5_hexdigest w content
  | None => ""
  end.

(** [UPDATE songs SET ... WHERE id = ?] *)
Definition update_where_id (f : song -> song) (i : Z) (l : list song) : list song :=
  map (fun s => if bool_decide (id s = i) then f s else s) l.

Definition mark_backed_up (fallback_filepath source_checksum : string) (now : Z) (s : song)
  : song :=
  {| id := id s; filename := filename s; filepath := filepath s;
     play_count := play_count s; last_played := last_played s;
     storage_location := loc_both;
     fallback_path := Some fallback_filepath;
     is_backup_synced := true;
     backup_date := Some now;
     checksum := Some source_checksum;
     is_available := is_available s |}.

(** [backup_song].  When the copy raises, the destination is left as the
    copy left it - the handler removes nothing - and the handler records
    the failure.  The INSERT of the handler is not protected: like every
    statement on the catalog database it is taken to be accepted (refused,
    its exception would leave [backup_song]).  [os.remove] of the copy
    just written and [os.path.getsize] are taken to succeed. *)
Definition backup_song (mgr : manager) (w : world) (st : store) (sg : song) : bool * store :=
  let source_path := filepath sg in
  match files st !! source_path with
  | None => (false, st)
  | Some content =>
    let fname := basename source_path in
    let fallback_filepath := path_join (fallback_dir mgr) fname in
    let copied :=
      if bool_decide (source_path = fallback_filepath)
      then Raises "source and destination are the same file"
      else copy_stored w fallback_filepath content in
    match copied with
    | Raises e =>
      (false,
       {| songs := songs st;
          files :=
            if bool_decide (source_path = fallback_filepath) then files st
            else match copy_residue w fallback_filepath content with
                 | Some partial => <[fallback_filepath := partial]> (files st)
                 | None => files st
                 end;
          backup_sync_log := backup_sync_log st ++
            [{| song_id := id sg; action := "backup_failed";
                source_path := Some source_path; destination_path := None;
                file_size := None; log_checksum := None;
                error_message := Some e |}] |})
    | Returns stored =>
      let fs1 := <[fallback_filepath := stored]> (files st) in
      let source_checksum := get_file_checksum w fs1 source_path in
      let backup_checksum := get_file_checksum w fs1 fallback_filepath in
      if negb (String.eqb source_checksum backup_checksum) then
        (false,
         {| songs := songs st; files := delete fallback_filepath fs1;
            backup_sync_log := backup_sync_log st |})
      else
        (true,
         {| songs := update_where_id
                       (mark_backed_up fallback_filepath source_checksum (current_timestamp w))
                       (id sg) (songs st);
            files := fs1;
            backup_sync_log := backup_sync_log st ++
              [{| song_id := id sg; action := "backup_created";
                  source_path := Some source_path;
                  destination_path := Some fallback_filepath;
                  file_size := Some (Z.of_nat (String.length stored));
                  log_checksum := Some source_checksum;
                  error_message := None |}] |})
    end
  end.

(** SQL ordering: NULL sorts before every value. *)
Definition null_first_le (a b : option Z) : Prop :=
  match a, b with
  | None, _ => True
  | Some _, None => False
  | Some x, Some y => x <= y
  end.

(** [ORDER BY play_count ASC, last_played ASC] *)
Definition least_played_first (a b : song) : Prop :=
  play_count a < play_count b \/
  (play_count a = play_count b /\ null_first_le (last_played a) (last_played b)).

(** [ORDER BY play_count DESC, last_played DESC] *)
Definition most_played_first (a b : song) : Prop := least_played_first b a.

Global Instance null_first_le_dec a b : Decision (null_first_le a b).
Proof. destruct a, b; simpl; apply _. Defined.

Global Instance least_played_first_dec a b : Decision (least_played_first a b).
Proof. unfold least_played_first. apply _. Defined.

Global Instance most_played_first_dec a b : Decision (most_played_first a b).
Proof. unfold most_played_first. apply _. Defined.

(** [LIMIT n]: a negative bound means no bound in sqlite. *)
Definition sql_limit {A} (n : Z) (l : list A) : list A :=
  if n <? 0 then l else take (Z.to_nat n) l.

Definition is_backed_up (s : song) : bool :=
  bool_decide (storage_location s = loc_fallback) ||
  bool_decide (storage_location s = loc_both).

(** [SELECT COUNT( * ) FROM songs WHERE storage_location IN ('fallback', 'both')] *)
Definition backup_count (l : list song) : Z :=
  Z.of_nat (length (filter (fun s => is_backed_up s = true) l)).

Definition get_backup_candidates (mgr : manager) (st : store) : list song :=
  sql_limit (max_backup_songs mgr)
    (merge_sort most_played_first
       (filter (fun s => storage_location s = loc_primary /\ is_available s = true)
               (songs st))).

Definition unmark_backup (s : song) : song :=
  {| id := id s; filename := filename s; filepath := filepath s;
     play_count := play_count s; last_played := last_played s;
     storage_location := loc_primary;
     fallback_path := None;
     is_backup_synced := false;
     backup_date := None;
     checksum := checksum s;
     is_available := is_available s |}.

(** The rows [_cleanup_old_backups] selects. *)
Definition songs_to_remove (st : store) : list song :=
  sql_limit 10
    (merge_sort least_played_first
       (filter (fun s => storage_location s = loc_both) (songs st))).

(** A fetched row: a [sqlite3.Row], whose columns can be read by name, when
    the connection has [row_factory = sqlite3.Row]; a plain tuple otherwise. *)
Inductive fetched_row :=
| named_row (s : song)
| tuple_row (s : song).

(** [row['column']] *)
Definition column {A} (r : fetched_row) (c : song -> A) : os_result A :=
  match r with
  | named_row s => Returns (c s)
  | tuple_row _ => Raises "tuple indices must be integers or slices, not str"
  end.

(** The body of the eviction loop once the row has been read. *)
Definition remove_backup (st : store) (i : Z) (fp : option string) : store :=
  {| songs := update_where_id unmark_backup i (songs st);
     files :=
       match fp with
       | Some p => if bool_decide (p = EmptyString) then files st else delete p (files st)
       | None => files st
       end;
     backup_sync_log := backup_sync_log st ++
       [{| song_id := i; action := "backup_removed";
           source_path := None; destination_path := fp;
           file_size := None; log_checksum := None; error_message := None |}] |}.

(** The loop [for song in songs_to_remove]: the store reached, and the
    exception that interrupted the loop, if any. *)
Fixpoint cleanup_rows (rows : list fetched_row) (st : store) : store * option string :=
  match rows with
  | [] => (st, None)
  | r :: rest =>
    match column r fallback_path with
    | Raises e => (st, Some e)
    | Returns fp =>
      match column r id with
      | Raises e => (st, Some e)
      | Returns i => cleanup_rows rest (remove_backup st i fp)
      end
    end
  end.

(** [_cleanup_old_backups] opens its connection without a row factory, so
    the rows it fetches are tuples.  When the loop is interrupted the
    handler logs the error and the open transaction is rolled back; files
    already removed stay removed. *)
Definition _cleanup_old_backups (st : store) : store :=
  match cleanup_rows (tuple_row <$> songs_to_remove st) st with
  | (st', None) => st'
  | (st', Some _) =>
    {| songs := songs st; files := files st'; backup_sync_log := backup_sync_log st |}
  end.

Record sync_results := {
  backed_up : Z;
  failed : Z;
  skipped : Z;
  total_backup_songs : Z
}.

(** One iteration of the loop over the candidates. *)
Definition sync_step (mgr : manager) (w : world) (acc : sync_results * store) (sg : song)
  : sync_results * store :=
  let '(res, st) := acc in
  if max_backup_songs mgr <=? total_backup_songs res then
    ({| backed_up := backed_up res; failed := failed res;
        skipped := skipped res + 1;
        total_backup_songs := total_backup_songs res |}, st)
  else if bool_decide (storage_location sg = loc_both) then (res, st)
  else
    let '(ok, st') := backup_song mgr w st sg in
    if ok then
      ({| backed_up := backed_up res + 1; failed := failed res;
          skipped := skipped res;
          total_backup_songs := total_backup_songs res + 1 |}, st')
    else
      ({| backed_up := backed_up res; failed := failed res + 1;
          skipped := skipped res;
          total_backup_songs := total_backup_songs res |}, st').

Definition sync_backup_storage (mgr : manager) (w : world) (st : store)
  : sync_results * store :=
  let results := {| backed_up := 0; failed := 0; skipped := 0; total_backup_songs := 0 |} in
  match fallback_usage w with
  | Raises _ => (results, st)
  | Returns fallback_stat =>
    let available_gb := gib (du_free fallback_stat) in
    if Qltb available_gb 1 then (results, st)
    else
      let results1 :=
        {| backed_up := 0; failed := 0; skipped := 0;
           total_backup_songs := backup_count (songs st) |} in
      let st1 :=
        if max_backup_songs mgr <=? total_backup_songs results1
        then _cleanup_old_backups st else st in
      fold_left (sync_step mgr w) (get_backup_candidates mgr st1) (results1, st1)
  end.

Record verify_results := {
  verified : Z;
  corrupted : Z;
  missing : Z
}.

(** Truth value of [song['checksum']] *)
Definition stored_checksum (s : song) : option string :=
  match checksum s with
  | Some c => if bool_decide (c = EmptyString) then None else Some c
  | None => None
  end.

Definition demote_missing (s : song) : song :=
  {| id := id s; filename := filename s; filepath := filepath s;
     play_count := play_count s; last_played := last_played s;
     storage_location := loc_primary;
     fallback_path := None;
     is_backup_synced := false;
     backup_date := backup_date s;
     checksum := checksum s;
     is_available := is_available s |}.

(** The rows [verify_backup_integrity] selects, with their fallback path
    (this connection has [row_factory = sqlite3.Row]). *)
Definition backup_songs (st : store) : list (song * string) :=
  omap (fun s => if is_backed_up s
                 then (fun p => (s, p)) <$> fallback_path s
                 else None) (songs st).

Definition verify_step (w : world) (fs : gmap string string)
    (acc : verify_results * list song) (sp : song * string)
  : verify_results * list song :=
  let '(res, rows) := acc in
  let '(sg, fallback_filepath) := sp in
  match fs !! fallback_filepath with
  | None =>
    ({| verified := verified res; corrupted := corrupted res; missing := missing res + 1 |},
     update_where_id demote_missing (id sg) rows)
  | Some _ =>
    let damaged :=
      match stored_checksum sg with
      | Some c => negb (String.eqb (get_file_checksum w fs fallback_filepath) c)
      | None => false
      end in
    if damaged then
      ({| verified := verified res; corrupted := corrupted res + 1; missing := missing res |},
       rows)
    else
      ({| verified := verified res + 1; corrupted := corrupted res; missing := missing res |},
       rows)
  end.

Definition verify_backup_integrity (w : world) (st : store) : verify_results * store :=
  let '(res, rows) :=
    fold_left (verify_step w (files st)) (backup_songs st)
      ({| verified := 0; corrupted := 0; missing := 0 |}, songs st) in
  (res, {| songs := rows; files := files st; backup_sync_log := backup_sync_log st |}).

Record space_report := {
  total_gb : Q;
  used_gb : Q;
  free_gb : Q
}.

Definition space_report_of (stat : disk_usage) : space_report :=
  {| total_gb := gib (du_total stat);
     used_gb := gib (du_total stat - du_free stat);
     free_gb := gib (du_free stat) |}.

Record backup_status := {
  stats : list (string * sql_value);
  primary_storage : option space_report;
  fallback_storage : option space_report
}.

(** [primary_usage] is what [shutil.disk_usage(self.primary_path)] answers.
    The connection sets no row factory.  [None] is the empty dict of the
    handler. *)
Definition get_backup_status (w : world) (primary_usage : os_result disk_usage) (st : store)
  : option backup_status :=
  let rows := filter (fun s => is_available s = true) (songs st) in
  let row :=
    fetchone false
      [("total_songs", sql_count rows);
       ("primary_only",
        sql_sum_case (fun s => bool_decide (storage_location s = loc_primary)) rows);
       ("fallback_only",
        sql_sum_case (fun s => bool_decide (storage_location s = loc_fallback)) rows);
       ("both_locations",
        sql_sum_case (fun s => bool_decide (storage_location s = loc_both)) rows)] in
  match py_dict row with
  | Raises _ => None
  | Returns stats0 =>
    match primary_usage, fallback_usage w with
    | Returns primary_stat, Returns fallback_stat =>
      Some {| stats := stats0;
              primary_storage := Some (space_report_of primary_stat);
              fallback_storage := Some (space_report_of fallback_stat) |}
    | _, _ =>
      Some {| stats := stats0; primary_storage := None; fallback_storage := None |}
    end
  end.

End BackupManager.

(** * Vocabulary of the statements *)

Section MonitorTerms.
Import StorageMonitor.

(** The probe of the endpoint [k] as [check_storage_health] performs it. *)
Definition probe (os : os_state) (m : monitor) (k : storage_kind) : option storage_info :=
  get_storage_info os (warning_threshold m)
    (match k with primary => primary_path m | fallback => fallback_path m end).

(** The same request issued [n] times in a row on an unchanged machine. *)
Definition repeat_switch (os : os_state) (target : string) (n : nat) (m : monitor) : monitor :=
  Nat.iter n (fun m0 => snd (switch_storage os m0 target)) m.

Definition self_switch_event (k : storage_kind) : storage_event :=
  {| event_type := "switch";
     storage_type := kind_name k;
     message := "Switched from " ++ kind_name k ++ " to " ++ kind_name k |}.

(** The row a switch from [old] to [target] asks [_log_storage_event] to write. *)
Definition switch_event (old target : storage_kind) : storage_event :=
  {| event_type := "switch";
     storage_type := kind_name target;
     message := "Switched from " ++ kind_name old ++ " to " ++ kind_name target |}.

(** Whether sqlite accepts a write transaction on [table]. *)
Definition accepts (os : os_state) (table : string) : bool :=
  match os_sqlite_write os table with Returns _ => true | Raises _ => false end.

(** What a request to log [ev] leaves in [storage_events]: the row when the
    INSERT is accepted, nothing when it is refused. *)
Definition logged (os : os_state) (ev : storage_event) : list storage_event :=
  if accepts os "storage_events" then [ev] else [].

(** The usage ratio [get_storage_info] derives from a space report. *)
Definition usage_ratio (u : disk_usage) : Q :=
  if Qltb 0 (gib (du_total u))
  then (gib (du_total u - du_free u) / gib (du_total u))%Q
  else 0%Q.

(** The entry [detect_storage_issues] adds for the system as a whole. *)
Definition system_issue : issue :=
  {| issue_storage := "system"; issue_sev := issue_critical;
     issue_what := BothStoragesCritical;
     issue_recommendation := "Immediate attention required - system may fail" |}.

Definition critical_count (l : list issue) : nat :=
  length (filter (fun i => issue_sev i = issue_critical) l).

End MonitorTerms.

Section HealthTerms.
Import StorageHealthChecker.

Definition status_of (o : check_outcome) : option health :=
  match o with
  | InvalidStorageType => None
  | Report r => Some (overall_status r)
  end.

Definition alerts_of (o : check_outcome) : list alert :=
  match o with
  | InvalidStorageType => []
  | Report r => alerts r
  end.

Definition path_of_kind (cfg : config) (k : storage_kind) : string :=
  match k with primary => SYNCED_FOLDER cfg | fallback => BACKUP_FOLDER cfg end.

(** The run, as a function of the endpoint. *)
Definition run_check (cfg : config) (os : os_state) (probes : string -> fs_probe)
    (db : health_db) (k : storage_kind) : check_outcome :=
  fst (perform_comprehensive_health_check cfg os probes db (kind_name k)).

(** The names of the five checks, in the order they are run. *)
Definition check_names : list string :=
  ["availability"; "io_performance"; "space_utilization"; "file_system_integrity";
   "music_files"].

(** The alert types a completed run raises, from the outcome of the four
    later checks. *)
Definition failing_alert_types (io space integrity music : bool) : list string :=
  (if io then [] else ["performance"]) ++
  (if space then [] else ["space"]) ++
  (if integrity then [] else ["integrity"]) ++
  (if music then [] else ["music_files"]).

End HealthTerms.

Section BackupTerms.
Import BackupManager.

(** The destination [backup_song] copies to. *)
Definition fallback_file (mgr : manager) (sg : song) : string :=
  path_join (fallback_dir mgr) (basename (filepath sg)).

(** The catalog has a primary key. *)
Definition unique_ids (l : list song) : Prop := NoDup (map id l).


Inductive verdict := Missing | Corrupted | Verified.

Global Instance verdict_eq_dec : EqDecision verdict.
Proof. solve_decision. Defined.

(** What [verify_backup_integrity] concludes for one selected row. *)
Definition classify (w : world) (fs : gmap string string) (sp : song * string) : verdict :=
  match fs !! sp.2 with
  | None => Missing
  | Some content =>
    match stored_checksum sp.1 with
    | Some c => if String.eqb (md5_hexdigest w content) c then Verified else Corrupted
    | None => Verified
    end
  end.

Definition count_verdict (w : world) (fs : gmap string string) (v : verdict)
    (l : list (song * string)) : Z :=
  Z.of_nat (length (filter (fun sp => classify w fs sp = v) l)).

(** The ids of the selected rows whose fallback file is gone. *)
Definition missing_ids (w : world) (fs : gmap string string) (l : list (song * string))
  : list Z :=
  map (fun sp => id sp.1) (filter (fun sp => classify w fs sp = Missing) l).

(** The specification's reading of a corrupted backup: the file is there
    and its recomputed checksum is not the stored one. *)
Definition differs_from_stored (w : world) (fs : gmap string string) (sp : song * string)
  : Prop :=
  exists content, fs !! sp.2 = Some content /\
                  checksum sp.1 <> Some (md5_hexdigest w content).

Global Instance differs_from_stored_dec w fs sp : Decision (differs_from_stored w fs sp).
Proof.
  unfold differs_from_stored.
  destruct (fs !! sp.2) as [content|].
  - destruct (decide (checksum sp.1 = Some (md5_hexdigest w content))) as [He|Hn].
    + right. intros (c & [= <-] & Hc). contradiction.
    + left. eauto.
  - right. intros (c & Hc & _). discriminate.
Defined.

(** The candidates a run of [sync_backup_storage] has dealt with, by its counters. *)
Definition handled (res : sync_results) : Z := backed_up res + failed res + skipped res.

(** The only change a backup run makes to a row: marking it [both]. *)
Definition at_most_marked (a b : song) : Prop :=
  id b = id a /\ filepath b = filepath a /\ play_count b = play_count a /\
  is_available b = is_available a /\
  (b = a \/ storage_location b = loc_both).

End BackupTerms.

Section SupervisionTerms.
Import StorageHealthChecker Supervision.

(** What one pass of the monitoring loop finds: the machine and the
    outcome of the diagnostics on each path. *)
Definition pass_env : Type := os_state * (string -> fs_probe).

(** The passes of [_monitoring_loop] over successive states of the machine. *)
Definition run_passes (cfg : config) (envs : list pass_env) (s : supervisor) : supervisor :=
  fold_left (fun s0 e => monitoring_pass cfg e.1 e.2 s0) envs s.

(** The overall status a health check of the primary endpoint reports. *)
Definition primary_status (cfg : config) (e : pass_env) : option health :=
  status_of (fst (perform_comprehensive_health_check cfg e.1 e.2
                    {| storage_health_checks := []; storage_alerts := [] |} "primary")).

(** The value of [consecutive_failures.get('primary', 0)]. *)
Definition primary_failures (s : supervisor) : Z :=
  default 0 (consecutive_failures s !! "primary").

(** Every row of the two tables of the health checker names one of the two
    storage types. *)
Definition typed_rows (db : health_db) : Prop :=
  Forall (fun r => parse_kind (hcr_storage_type r) <> None) (storage_health_checks db) /\
  Forall (fun r => parse_kind (ar_storage_type r) <> None) (storage_alerts db).

(** A health check request: the machine, the diagnostics and the storage
    type asked for. *)
Definition check_request : Type := pass_env * string.

(** The tables after a series of health checks. *)
Definition checks_run (cfg : config) (requests : list check_request) (db : health_db)
  : health_db :=
  fold_left (fun db0 q => snd (perform_comprehensive_health_check cfg q.1.1 q.1.2 db0 q.2))
            requests db.

(** A history without any row. *)
Definition empty_history (h : health_history) : Prop :=
  hh_health_checks h = [] /\ hh_alerts h = [] /\ total_checks h = 0 /\ total_alerts h = 0.

End SupervisionTerms.

(** * Concrete machines and catalogs used to exercise the statements *)

Module Fixtures.
Import StorageMonitor.

(** Both volumes present, mounted under [/], readable and writable, half full. *)
Definition os_both_ok : os_state :=
  {| os_exists := fun _ => true;
     os_readable := fun _ => true;
     os_writable := fun _ => true;
     os_disk_usage := fun _ =>
       Returns {| du_total := 100 * 1024 ^ 3; du_free := 50 * 1024 ^ 3 |};
     os_mountpoints := Returns ["/"];
     os_resolve := fun p => Returns [p; "/"];
     os_sqlite_write := fun _ => Returns tt |}.

(** The primary volume has disappeared; the fallback one is fine. *)
Definition os_primary_gone : os_state :=
  {| os_exists := fun p => negb (String.eqb p (SYNCED_FOLDER default_config));
     os_readable := fun p => negb (String.eqb p (SYNCED_FOLDER default_config));
     os_writable := fun p => negb (String.eqb p (SYNCED_FOLDER default_config));
     os_disk_usage := fun _ =>
       Returns {| du_total := 100 * 1024 ^ 3; du_free := 50 * 1024 ^ 3 |};
     os_mountpoints := Returns ["/"];
     os_resolve := fun p => Returns [p; "/"];
     os_sqlite_write := fun _ => Returns tt |}.

(** Nothing exists. *)
Definition os_nothing : os_state :=
  {| os_exists := fun _ => false;
     os_readable := fun _ => false;
     os_writable := fun _ => false;
     os_disk_usage := fun _ => Raises "[Errno 2] No such file or directory";
     os_mountpoints := Returns ["/"];
     os_resolve := fun p => Returns [p; "/"];
     os_sqlite_write := fun _ => Returns tt |}.

(** A directory that exists on a volume 95% full, is not readable, and has
    no listed mount point among its ancestors. *)
Definition os_unmounted_full : os_state :=
  {| os_exists := fun _ => true;
     os_readable := fun _ => false;
     os_writable := fun _ => false;
     os_disk_usage := fun _ =>
       Returns {| du_total := 100 * 1024 ^ 3; du_free := 5 * 1024 ^ 3 |};
     os_mountpoints := Returns [];
     os_resolve := fun p => Returns [p; "/"];
     os_sqlite_write := fun _ => Returns tt |}.

(** The space query of the primary volume fails with an I/O error; the
    fallback volume is fine. *)
Definition os_primary_query_fails : os_state :=
  {| os_exists := fun _ => true;
     os_readable := fun _ => true;
     os_writable := fun _ => true;
     os_disk_usage := fun p =>
       if String.eqb p (SYNCED_FOLDER default_config)
       then Raises "[Errno 5] Input/output error"
       else Returns {| du_total := 100 * 1024 ^ 3; du_free := 50 * 1024 ^ 3 |};
     os_mountpoints := Returns ["/"];
     os_resolve := fun p => Returns [p; "/"];
     os_sqlite_write := fun _ => Returns tt |}.

(** The primary directory has lost its write permission and the fallback
    directory does not exist. *)
Definition os_primary_readonly_no_fallback : os_state :=
  {| os_exists := fun p => String.eqb p (SYNCED_FOLDER default_config);
     os_readable := fun p => String.eqb p (SYNCED_FOLDER default_config);
     os_writable := fun _ => false;
     os_disk_usage := fun _ =>
       Returns {| du_total := 100 * 1024 ^ 3; du_free := 15 * 1024 ^ 3 |};
     os_mountpoints := Returns ["/"];
     os_resolve := fun p => Returns [p; "/"];
     os_sqlite_write := fun _ => Returns tt |}.

(** The primary directory has lost its write permission; the fallback
    directory is fine. *)
Definition os_fallback_only_writable : os_state :=
  {| os_exists := fun _ => true;
     os_readable := fun _ => true;
     os_writable := fun p => negb (String.eqb p (SYNCED_FOLDER default_config));
     os_disk_usage := fun _ =>
       Returns {| du_total := 100 * 1024 ^ 3; du_free := 50 * 1024 ^ 3 |};
     os_mountpoints := Returns ["/"];
     os_resolve := fun p => Returns [p; "/"];
     os_sqlite_write := fun _ => Returns tt |}.

(** Both volumes are fine, but the database is locked by another process:
    every write is refused. *)
Definition os_database_locked : os_state :=
  {| os_exists := fun _ => true;
     os_readable := fun _ => true;
     os_writable := fun _ => true;
     os_disk_usage := fun _ =>
       Returns {| du_total := 100 * 1024 ^ 3; du_free := 50 * 1024 ^ 3 |};
     os_mountpoints := Returns ["/"];
     os_resolve := fun p => Returns [p; "/"];
     os_sqlite_write := fun _ => Raises "database is locked" |}.

Definition fresh_monitor : monitor :=
  {| primary_path := SYNCED_FOLDER default_config;
     fallback_path := BACKUP_FOLDER default_config;
     warning_threshold := STORAGE_WARNING_THRESHOLD default_config;
     current_storage := primary;
     storage_events := [];
     status_primary := initial_row;
     status_fallback := initial_row |}.

End Fixtures.

Module HealthFixtures.
Import StorageHealthChecker.

(** Every diagnostic succeeds quickly; ten audio files, all readable. *)
Definition probe_all_fine : fs_probe :=
  {| availability_ms := 0;
     io_test := Returns tt; io_ms := 120;
     space_ms := 0;
     integrity_test := Returns tt; integrity_ms := 3;
     music_walk := Returns (10, 0); music_ms := 40 |}.

(** The directory round trip fails and half of the audio files cannot be opened. *)
Definition probe_integrity_and_music_fail : fs_probe :=
  {| availability_ms := 0;
     io_test := Returns tt; io_ms := 120;
     space_ms := 0;
     integrity_test := Raises "File content mismatch"; integrity_ms := 3;
     music_walk := Returns (10, 5); music_ms := 40 |}.

(** Both volumes reachable, 95 GiB used of 100 GiB. *)
Definition os_95_percent : os_state :=
  {| os_exists := fun _ => true;
     os_readable := fun _ => true;
     os_writable := fun _ => true;
     os_disk_usage := fun _ =>
       Returns {| du_total := 100 * 1024 ^ 3; du_free := 5 * 1024 ^ 3 |};
     os_mountpoints := Returns ["/"];
     os_resolve := fun p => Returns [p; "/"];
     os_sqlite_write := fun _ => Returns tt |}.

Definition empty_db : health_db :=
  {| storage_health_checks := []; storage_alerts := [] |}.

(** A supervisor that has not yet seen a failure. *)
Definition fresh_supervisor : Supervision.supervisor :=
  {| Supervision.consecutive_failures := ∅;
     Supervision.sup_db := {| storage_health_checks := []; storage_alerts := [] |};
     Supervision.sup_monitor := Fixtures.fresh_monitor |}.

(** A pass on a machine whose primary volume has disappeared. *)
Definition pass_primary_gone : pass_env := (Fixtures.os_primary_gone, fun _ => probe_all_fine).

End HealthFixtures.

Module BackupFixtures.
Import BackupManager.

(** The digest is the content itself, so two files have the same digest
    exactly when they have the same bytes. *)
Definition faithful_world : world :=
  {| md5_hexdigest := fun content => content;
     copy_stored := fun _ content => Returns content;
     copy_residue := fun _ _ => None;
     current_timestamp := 1700000000;
     fallback_usage :=
       Returns {| du_total := 32 * 1024 ^ 3; du_free := 20 * 1024 ^ 3 |} |}.

(** A fallback device that keeps only the first four bytes of what is written. *)
Definition truncating_world : world :=
  {| md5_hexdigest := fun content => content;
     copy_stored := fun _ content => Returns (String.substring 0 4 content);
     copy_residue := fun _ _ => None;
     current_timestamp := 1700000000;
     fallback_usage :=
       Returns {| du_total := 32 * 1024 ^ 3; du_free := 20 * 1024 ^ 3 |} |}.

(** A fallback device that runs out of space: the copy raises after four
    bytes have been written. *)
Definition full_device_world : world :=
  {| md5_hexdigest := fun content => content;
     copy_stored := fun _ _ => Raises "[Errno 28] No space left on device";
     copy_residue := fun _ content => Some (String.substring 0 4 content);
     current_timestamp := 1700000000;
     fallback_usage :=
       Returns {| du_total := 32 * 1024 ^ 3; du_free := 20 * 1024 ^ 3 |} |}.

Definition song_a : song :=
  {| id := 1; filename := "a.mp3"; filepath := "/media/ssd/synced/a.mp3";
     play_count := 7; last_played := Some 1690000000;
     storage_location := loc_primary; fallback_path := None;
     is_backup_synced := false; backup_date := None;
     checksum := None; is_available := true |}.

Definition one_song_store : store :=
  {| songs := [song_a];
     files := {[ "/media/ssd/synced/a.mp3" := "ID3-audio-bytes" ]};
     backup_sync_log := [] |}.

End BackupFixtures.

Module SyncFixtures.
Import BackupManager BackupFixtures.

(** The song number [i], already backed up; file names are unique, as the
    catalog requires. *)
Definition backed_up_song (i : nat) : song :=
  {| id := Z.of_nat i;
     filename := "track" +:+ pretty i +:+ ".mp3";
     filepath := "/media/ssd/synced/track" +:+ pretty i +:+ ".mp3";
     play_count := Z.of_nat i; last_played := None;
     storage_location := loc_both;
     fallback_path := Some ("/home/pi/music_backup/track" +:+ pretty i +:+ ".mp3");
     is_backup_synced := true; backup_date := Some 1690000000;
     checksum := Some "d41d8cd9"; is_available := true |}.

(** The song number [i], on the primary volume only and waiting for a backup. *)
Definition waiting_song (i : nat) : song :=
  {| id := Z.of_nat i;
     filename := "track" +:+ pretty i +:+ ".mp3";
     filepath := "/media/ssd/synced/track" +:+ pretty i +:+ ".mp3";
     play_count := Z.of_nat i; last_played := None;
     storage_location := loc_primary;
     fallback_path := None;
     is_backup_synced := false; backup_date := None;
     checksum := None; is_available := true |}.

(** The source files of the songs that wait. *)
Definition waiting_files (l : list nat) : gmap string string :=
  list_to_map (map (fun i => (filepath (waiting_song i), "audio-bytes-" +:+ pretty i)) l).

(** A catalog of 111 songs marked [both] and three songs waiting for a
    backup, their source files in place. *)
Definition crowded_store : store :=
  {| songs := map backed_up_song (seq 1 111) ++ map waiting_song [201; 202; 203]%nat;
     files := waiting_files [201; 202; 203]%nat;
     backup_sync_log := [] |}.

(** A manager that keeps at most two backups. *)
Definition small_manager : manager :=
  {| fallback_dir := BACKUP_FOLDER default_config; max_backup_songs := 2 |}.

(** One song backed up and three waiting: under [small_manager] there is
    room for one more backup. *)
Definition nearly_full_store : store :=
  {| songs := backed_up_song 1 :: map waiting_song [201; 202; 203]%nat;
     files := waiting_files [201; 202; 203]%nat;
     backup_sync_log := [] |}.


End SyncFixtures.

Module VerifyFixtures.
Import BackupManager BackupFixtures.

(** Two songs marked [both] whose fallback files are present but do not
    hold the original bytes; the first has no stored checksum (NULL), the
    second an empty one. *)
Definition unchecked_store : store :=
  {| songs :=
       [ {| id := 1; filename := "a.mp3"; filepath := "/media/ssd/synced/a.mp3";
            play_count := 3; last_played := None;
            storage_location := loc_both;
            fallback_path := Some "/home/pi/music_backup/a.mp3";
            is_backup_synced := true; backup_date := Some 1690000000;
            checksum := None; is_available := true |};
         {| id := 2; filename := "b.mp3"; filepath := "/media/ssd/synced/b.mp3";
            play_count := 5; last_played := None;
            storage_location := loc_both;
            fallback_path := Some "/home/pi/music_backup/b.mp3";
            is_backup_synced := true; backup_date := Some 1690000000;
            checksum := Some ""; is_available := true |} ];
     files := {[ "/home/pi/music_backup/a.mp3" := "garbage";
                 "/home/pi/music_backup/b.mp3" := "garbage" ]};
     backup_sync_log := [] |}.

(** One intact backup, one damaged backup with a stored checksum, one
    backup whose file is gone. *)
Definition mixed_store : store :=
  {| songs :=
       [ {| id := 1; filename := "a.mp3"; filepath := "/media/ssd/synced/a.mp3";
            play_count := 3; last_played := None;
            storage_location := loc_both;
            fallback_path := Some "/home/pi/music_backup/a.mp3";
            is_backup_synced := true; backup_date := Some 1690000000;
            checksum := Some "bytes-of-a"; is_available := true |};
         {| id := 2; filename := "b.mp3"; filepath := "/media/ssd/synced/b.mp3";
            play_count := 5; last_played := None;
            storage_location := loc_both;
            fallback_path := Some "/home/pi/music_backup/b.mp3";
            is_backup_synced := true; backup_date := Some 1690000000;
            checksum := Some "bytes-of-b"; is_available := true |};
         {| id := 3; filename := "c.mp3"; filepath := "/media/ssd/synced/c.mp3";
            play_count := 9; last_played := None;
            storage_location := loc_fallback;
            fallback_path := Some "/home/pi/music_backup/c.mp3";
            is_backup_synced := true; backup_date := Some 1690000000;
            checksum := Some "bytes-of-c"; is_available := true |} ];
     files := {[ "/home/pi/music_backup/a.mp3" := "bytes-of-a";
                 "/home/pi/music_backup/b.mp3" := "garbage" ]};
     backup_sync_log := [] |}.

End VerifyFixtures.

(** * Properties *)

(** ** Storage monitor *)
Section MonitorFacts.
Import StorageMonitor.

Lemma parse_kind_name s k : parse_kind s = Some k -> s = kind_name k.
Proof.
  unfold parse_kind.
  destruct (String.eqb s "primary") eqn:Hp.
  - intros [= <-]. now apply String.eqb_eq in Hp.
  - destruct (String.eqb s "fallback") eqn:Hf; [|discriminate].
    intros [= <-]. now apply String.eqb_eq in Hf.
Qed.

Lemma parse_kind_of_name k : parse_kind (kind_name k) = Some k.
Proof. now destruct k. Qed.

Lemma hc_lookup_probe os m k :
  hc_lookup (check_storage_health os m) k = probe os m k.
Proof. now destruct k. Qed.

(** A switch that goes through. *)
Lemma switch_storage_available os m k :
  available (probe os m k) = true ->
  switch_storage os m (kind_name k) =
    (SwitchDone ("Switched to " ++ kind_name k ++ " storage") (current_storage m) k,
     _update_storage_status os
       (_log_storage_event os (set_current_storage m k) "switch" (kind_name k)
          ("Switched from " ++ kind_name (current_storage m) ++ " to " ++ kind_name k))).
Proof.
  intros Hav. unfold switch_storage.
  rewrite parse_kind_of_name, hc_lookup_probe, Hav. reflexivity.
Qed.

Lemma switch_storage_unavailable os m k :
  available (probe os m k) = false ->
  switch_storage os m (kind_name k) =
    (SwitchFailed (kind_title k ++ " storage is not available"), m).
Proof.
  intros Hav. unfold switch_storage.
  rewrite parse_kind_of_name, hc_lookup_probe, Hav. reflexivity.
Qed.

Lemma switch_storage_invalid os m target :
  parse_kind target = None ->
  switch_storage os m target = (SwitchFailed "Invalid storage type", m).
Proof. intros H. unfold switch_storage. now rewrite H. Qed.

(** What the two writes of a switch leave of the monitor, whether sqlite
    accepts them or not. *)
Lemma update_storage_status_keeps os m :
  current_storage (_update_storage_status os m) = current_storage m /\
  storage_events (_update_storage_status os m) = storage_events m /\
  primary_path (_update_storage_status os m) = primary_path m /\
  fallback_path (_update_storage_status os m) = fallback_path m /\
  warning_threshold (_update_storage_status os m) = warning_threshold m.
Proof.
  unfold _update_storage_status. cbv zeta.
  destruct (os_sqlite_write os "storage_status"); repeat split.
Qed.

Lemma log_storage_event_keeps os m t st msg :
  current_storage (_log_storage_event os m t st msg) = current_storage m /\
  storage_events (_log_storage_event os m t st msg)
    = storage_events m ++
      logged os {| event_type := t; storage_type := st; message := msg |} /\
  primary_path (_log_storage_event os m t st msg) = primary_path m /\
  fallback_path (_log_storage_event os m t st msg) = fallback_path m /\
  warning_threshold (_log_storage_event os m t st msg) = warning_threshold m /\
  status_primary (_log_storage_event os m t st msg) = status_primary m /\
  status_fallback (_log_storage_event os m t st msg) = status_fallback m.
Proof.
  unfold _log_storage_event, logged, accepts.
  destruct (os_sqlite_write os "storage_events"); cbn; repeat split.
  now rewrite app_nil_r.
Qed.

Lemma switch_storage_done os m k :
  available (probe os m k) = true ->
  fst (switch_storage os m (kind_name k))
    = SwitchDone ("Switched to " ++ kind_name k ++ " storage") (current_storage m) k /\
  current_storage (snd (switch_storage os m (kind_name k))) = k /\
  storage_events (snd (switch_storage os m (kind_name k)))
    = storage_events m ++ logged os (switch_event (current_storage m) k) /\
  primary_path (snd (switch_storage os m (kind_name k))) = primary_path m /\
  fallback_path (snd (switch_storage os m (kind_name k))) = fallback_path m /\
  warning_threshold (snd (switch_storage os m (kind_name k))) = warning_threshold m.
Proof.
  intros Hav. rewrite (switch_storage_available _ _ _ Hav). cbn [fst snd].
  set (m2 := _log_storage_event _ _ _ _ _).
  destruct (update_storage_status_keeps os m2) as (Hc & He & Hp & Hf & Ht).
  destruct (log_storage_event_keeps os (set_current_storage m k) "switch" (kind_name k)
              ("Switched from " ++ kind_name (current_storage m) ++ " to " ++ kind_name k))
    as (Hc' & He' & Hp' & Hf' & Ht' & _).
  fold m2 in Hc', He', Hp', Hf', Ht'.
  rewrite Hc, He, Hp, Hf, Ht, Hc', He', Hp', Hf', Ht'. repeat split.
Qed.

Lemma logged_accepted os ev : accepts os "storage_events" = true -> logged os ev = [ev].
Proof. unfold logged. now intros ->. Qed.

Lemma logged_refused os ev : accepts os "storage_events" = false -> logged os ev = [].
Proof. unfold logged. now intros ->. Qed.

End MonitorFacts.

Section MonitorClaims.
Import StorageMonitor Fixtures.

(** C1, as stated, fails: with the database locked, a switch to the
    available fallback endpoint reports success and moves
    [current_storage], and no event is appended - [_log_storage_event] logs
    the sqlite error and goes on. *)
Lemma switch_succeeds_without_event :
  let res := switch_storage os_database_locked fresh_monitor "fallback" in
  success (fst res) = true /\
  current_storage (snd res) = fallback /\
  storage_events (snd res) = storage_events fresh_monitor /\
  ~ (exists ev, storage_events (snd res) = storage_events fresh_monitor ++ [ev]).
Proof.
  cbv zeta. split; [reflexivity|]. split; [reflexivity|]. split; [reflexivity|].
  intros (ev & Hev). vm_compute in Hev. discriminate.
Qed.

(** C1, amended.  Switch safety: every call of [switch_storage] that
    reports success leaves [current_storage] equal to the requested target
    and appends at most one event - exactly one, of type [switch], when
    sqlite accepts the INSERT, and none when it refuses it; every call
    whose target names an endpoint that the probe reports unavailable
    reports failure, keeps [current_storage] and appends nothing. *)
Theorem switch_storage_safety :
  forall os m target r m',
    switch_storage os m target = (r, m') ->
    (success r = true ->
       exists k,
         target = kind_name k /\ current_storage m' = k /\
         (accepts os "storage_events" = true ->
            exists ev, storage_events m' = storage_events m ++ [ev] /\
                       event_type ev = "switch") /\
         (accepts os "storage_events" = false -> storage_events m' = storage_events m)) /\
    (forall k, target = kind_name k -> available (probe os m k) = false ->
       success r = false /\ current_storage m' = current_storage m /\
       storage_events m' = storage_events m).
Proof.
  intros os m target r m' Hrun. split.
  - intros Hok.
    destruct (parse_kind target) as [k|] eqn:Hk.
    + pose proof (parse_kind_name _ _ Hk) as ->.
      destruct (available (probe os m k)) eqn:Hav.
      * destruct (switch_storage_done _ _ _ Hav) as (_ & Hc & He & _).
        rewrite Hrun in Hc, He. cbn [snd] in Hc, He.
        exists k. split; [reflexivity|]. split; [exact Hc|]. split.
        -- intros Hacc. rewrite (logged_accepted _ _ Hacc) in He.
           eexists. split; [exact He|reflexivity].
        -- intros Hrej. rewrite (logged_refused _ _ Hrej) in He.
           now rewrite app_nil_r in He.
      * rewrite (switch_storage_unavailable _ _ _ Hav) in Hrun.
        injection Hrun as <- <-. discriminate.
    + rewrite (switch_storage_invalid _ _ _ Hk) in Hrun.
      injection Hrun as <- <-. discriminate.
  - intros k -> Hav.
    rewrite (switch_storage_unavailable _ _ _ Hav) in Hrun.
    injection Hrun as <- <-. auto.
Qed.

Lemma switch_storage_safety_witness :
  (exists k,
     "fallback" = kind_name k /\
     current_storage (snd (switch_storage os_primary_gone fresh_monitor "fallback")) = k /\
     (accepts os_primary_gone "storage_events" = true ->
        exists ev,
          storage_events (snd (switch_storage os_primary_gone fresh_monitor "fallback"))
            = storage_events fresh_monitor ++ [ev] /\
          event_type ev = "switch") /\
     (accepts os_primary_gone "storage_events" = false ->
        storage_events (snd (switch_storage os_primary_gone fresh_monitor "fallback"))
          = storage_events fresh_monitor)) /\
  (success (fst (switch_storage os_primary_gone fresh_monitor "primary")) = false /\
   current_storage (snd (switch_storage os_primary_gone fresh_monitor "primary"))
     = current_storage fresh_monitor /\
   storage_events (snd (switch_storage os_primary_gone fresh_monitor "primary"))
     = storage_events fresh_monitor).
Proof.
  split.
  - apply (proj1 (switch_storage_safety os_primary_gone fresh_monitor "fallback" _ _
                    (surjective_pairing _))).
    vm_compute. reflexivity.
  - apply (proj2 (switch_storage_safety os_primary_gone fresh_monitor "primary" _ _
                    (surjective_pairing _)) primary).
    + reflexivity.
    + vm_compute. reflexivity.
Defined.

Lemma probe_after_switch os m k k' :
  probe os (snd (switch_storage os m (kind_name k))) k' = probe os m k'.
Proof.
  destruct (available (probe os m k)) eqn:Hav.
  - destruct (switch_storage_done _ _ _ Hav) as (_ & _ & _ & Hp & Hf & Ht).
    unfold probe. now rewrite Hp, Hf, Ht.
  - now rewrite (switch_storage_unavailable _ _ _ Hav).
Qed.

Lemma join_repeat_snoc {A} (l : list A) n :
  mjoin (repeat l (S n)) = mjoin (repeat l n) ++ l.
Proof.
  induction n as [|n IH].
  - cbn. now rewrite app_nil_r.
  - change (mjoin (repeat l (S (S n)))) with (l ++ mjoin (repeat l (S n))).
    rewrite IH at 1.
    change (mjoin (repeat l (S n))) with (l ++ mjoin (repeat l n)).
    now rewrite app_assoc.
Qed.

Lemma repeat_switch_self os k n : forall m,
  current_storage m = k ->
  available (probe os m k) = true ->
  current_storage (repeat_switch os (kind_name k) n m) = k /\
  available (probe os (repeat_switch os (kind_name k) n m) k) = true /\
  storage_events (repeat_switch os (kind_name k) n m)
    = storage_events m ++ mjoin (repeat (logged os (self_switch_event k)) n).
Proof.
  induction n as [|n IH]; intros m Hcur Hav.
  - simpl. now rewrite app_nil_r.
  - destruct (IH m Hcur Hav) as (Hc & Ha & He).
    unfold repeat_switch in *. rewrite !Nat.iter_succ.
    set (mn := Nat.iter n _ m) in *.
    rewrite probe_after_switch.
    destruct (switch_storage_done _ _ _ Ha) as (_ & Hc' & He' & _).
    rewrite Hc', He', He, Hc. repeat split; [assumption|].
    rewrite join_repeat_snoc, <- app_assoc. reflexivity.
Qed.

Lemma join_repeat_singleton {A} (x : A) n : mjoin (repeat [x] n) = repeat x n.
Proof.
  induction n as [|n IH]; [reflexivity|].
  change (mjoin (repeat [x] (S n))) with (x :: mjoin (repeat [x] n)). now rewrite IH.
Qed.

Lemma join_repeat_nil {A} n : mjoin (repeat (@nil A) n) = [].
Proof. induction n as [|n IH]; [reflexivity|exact IH]. Qed.

(** C10, as stated, fails: with the database locked, a switch to the
    endpoint that is already active succeeds and appends nothing, however
    often it is repeated. *)
Lemma switch_to_active_without_event :
  let X := current_storage fresh_monitor in
  success (fst (switch_storage os_database_locked fresh_monitor (kind_name X))) = true /\
  storage_events (snd (switch_storage os_database_locked fresh_monitor (kind_name X)))
    = storage_events fresh_monitor /\
  storage_events (repeat_switch os_database_locked (kind_name X) 3 fresh_monitor)
    = storage_events fresh_monitor.
Proof. cbv zeta. split; [reflexivity|]. split; reflexivity. Qed.

(** C10, amended.  A switch to the endpoint that is already active, when
    its probe reports it available, succeeds and keeps [current_storage];
    nothing rejects the request.  When sqlite accepts the INSERT the call
    appends one [switch] event recording a switch from the endpoint to
    itself, and [n] such calls in a row append [n] events; when it refuses
    the INSERT the calls succeed all the same and append nothing. *)
Theorem switch_to_active_logs_event :
  forall os m,
    available (probe os m (current_storage m)) = true ->
    let X := current_storage m in
    let res := switch_storage os m (kind_name X) in
    success (fst res) = true /\
    current_storage (snd res) = X /\
    (accepts os "storage_events" = true ->
       storage_events (snd res) = storage_events m ++ [self_switch_event X] /\
       forall n, storage_events (repeat_switch os (kind_name X) n m)
                 = storage_events m ++ repeat (self_switch_event X) n) /\
    (accepts os "storage_events" = false ->
       storage_events (snd res) = storage_events m /\
       forall n, storage_events (repeat_switch os (kind_name X) n m) = storage_events m).
Proof.
  intros os m Hav. cbv zeta.
  destruct (switch_storage_done _ _ _ Hav) as (Hr & Hc & He & _).
  split; [now rewrite Hr|]. split; [exact Hc|]. split.
  - intros Hacc. rewrite He. change (switch_event _ _) with
      (self_switch_event (current_storage m)).
    rewrite (logged_accepted _ _ Hacc). split; [reflexivity|].
    intros n. destruct (repeat_switch_self os _ n m eq_refl Hav) as (_ & _ & ->).
    now rewrite (logged_accepted _ _ Hacc), join_repeat_singleton.
  - intros Hrej. rewrite He, (logged_refused _ _ Hrej), app_nil_r. split; [reflexivity|].
    intros n. destruct (repeat_switch_self os _ n m eq_refl Hav) as (_ & _ & ->).
    now rewrite (logged_refused _ _ Hrej), join_repeat_nil, app_nil_r.
Qed.

Lemma switch_to_active_logs_event_witness :
  let X := current_storage fresh_monitor in
  let res := switch_storage os_both_ok fresh_monitor (kind_name X) in
  success (fst res) = true /\
  current_storage (snd res) = X /\
  (accepts os_both_ok "storage_events" = true ->
     storage_events (snd res) = storage_events fresh_monitor ++ [self_switch_event X] /\
     forall n, storage_events (repeat_switch os_both_ok (kind_name X) n fresh_monitor)
               = storage_events fresh_monitor ++ repeat (self_switch_event X) n) /\
  (accepts os_both_ok "storage_events" = false ->
     storage_events (snd res) = storage_events fresh_monitor /\
     forall n, storage_events (repeat_switch os_both_ok (kind_name X) n fresh_monitor)
               = storage_events fresh_monitor).
Proof.
  apply (switch_to_active_logs_event os_both_ok fresh_monitor).
  vm_compute. reflexivity.
Defined.

(** On a machine whose database accepts the writes, three switches to the
    active endpoint leave three rows. *)
Example three_switches_to_active :
  storage_events (repeat_switch os_both_ok "primary" 3 fresh_monitor)
  = [self_switch_event primary; self_switch_event primary; self_switch_event primary].
Proof. vm_compute. reflexivity. Qed.

Lemma decide_switch_iff current primary_info fallback_info :
  decide_switch current primary_info fallback_info = true <->
  (current = primary /\ available primary_info = false /\ available fallback_info = true) \/
  (current = fallback /\ available primary_info = true).
Proof.
  unfold decide_switch.
  destruct current, (available primary_info), (available fallback_info); simpl;
    split; intros H; try discriminate; try reflexivity;
    try (destruct H as [(? & ? & ?)|(? & ?)]; discriminate);
    auto.
Qed.

(** C7. For every pair of probe results and every active endpoint,
    [should_switch] is true exactly when (a) the active endpoint is
    [primary], primary is unavailable and fallback is available, or (b) the
    active endpoint is [fallback] and primary is available; in particular
    it is false when both are available and the active endpoint is
    [primary].  [check_storage_health] computes it from its two probes. *)
Theorem should_switch_exactly :
  (forall os m,
     should_switch (check_storage_health os m)
     = decide_switch (current_storage m) (probe os m primary) (probe os m fallback)) /\
  (forall current primary_info fallback_info,
     decide_switch current primary_info fallback_info = true <->
     (current = primary /\ available primary_info = false /\
      available fallback_info = true) \/
     (current = fallback /\ available primary_info = true)) /\
  (forall primary_info fallback_info,
     available primary_info = true -> available fallback_info = true ->
     decide_switch primary primary_info fallback_info = false).
Proof.
  split; [reflexivity|]. split; [apply decide_switch_iff|].
  intros p f Hp Hf. unfold decide_switch. now rewrite Hp.
Qed.

(** The failover scenario: the primary volume disappears, the monitor moves
    to the fallback one; the primary volume comes back, the monitor returns
    to it. *)
Example failover_and_return :
  let '(r1, m1) := auto_switch_storage os_primary_gone fresh_monitor in
  let '(r2, m2) := auto_switch_storage os_both_ok m1 in
  r1 = Some (SwitchDone "Switched to fallback storage" primary fallback) /\
  current_storage m1 = fallback /\
  r2 = Some (SwitchDone "Switched to primary storage" fallback primary) /\
  current_storage m2 = primary /\
  map message (storage_events m2)
    = ["Switched from primary to fallback"; "Switched from fallback to primary"].
Proof.
  vm_compute. split; [reflexivity|]. split; [reflexivity|].
  split; [reflexivity|]. split; reflexivity.
Qed.

Example switch_to_missing_primary_is_refused :
  switch_storage os_primary_gone fresh_monitor "primary"
  = (SwitchFailed "Primary storage is not available", fresh_monitor).
Proof. reflexivity. Qed.

Example switch_to_unknown_target_is_refused :
  switch_storage os_both_ok fresh_monitor "archive"
  = (SwitchFailed "Invalid storage type", fresh_monitor).
Proof. reflexivity. Qed.

End MonitorClaims.

Section ProbeClaims.
Import StorageMonitor Fixtures.

Lemma get_storage_info_missing os thr p :
  os_exists os p = false -> get_storage_info os thr p = None.
Proof. intros H. unfold get_storage_info. now rewrite H. Qed.

Lemma get_storage_info_oserror os thr p e :
  os_exists os p = true -> os_disk_usage os p = Raises e ->
  exists i, get_storage_info os thr p = Some i /\
            is_available i = false /\ health_status i = error /\
            info_error i = Some e.
Proof.
  intros Hex Hdu. unfold get_storage_info. rewrite Hex, Hdu. simpl.
  eexists. repeat split.
Qed.

Lemma get_storage_info_status os thr p u :
  os_exists os p = true -> os_disk_usage os p = Returns u ->
  exists i, get_storage_info os thr p = Some i /\
            is_mounted i = _is_path_mounted os p /\
            is_available i = _is_path_mounted os p && os_access_rw os p /\
            health_status i =
              (if Qle_bool thr (usage_ratio u) then warning
               else if negb (_is_path_mounted os p) then error
               else healthy).
Proof.
  intros Hex Hdu. unfold get_storage_info. rewrite Hex, Hdu. simpl.
  eexists. repeat split.
Qed.

(** C4. The probe of a path that does not exist: the source returns no
    endpoint at all ([None]) rather than an unavailable endpoint of tier
    [error]; its own test [test_get_storage_info_nonexistent_path] expects
    the endpoint.  The other half of the claim holds: the probe is total,
    and an OS error of the space query is turned into an unavailable
    [error] endpoint carrying the error text. *)
Theorem probe_of_missing_path :
  get_storage_info os_nothing (STORAGE_WARNING_THRESHOLD default_config)
    "/nonexistent/path" = None /\
  (forall os thr p, os_exists os p = false -> get_storage_info os thr p = None) /\
  (forall os thr p e,
     os_exists os p = true -> os_disk_usage os p = Raises e ->
     exists i, get_storage_info os thr p = Some i /\
               is_available i = false /\ health_status i = error /\
               info_error i = Some e).
Proof.
  split; [reflexivity|]. split.
  - apply get_storage_info_missing.
  - apply get_storage_info_oserror.
Qed.

(** C8. An existing directory that is not resolvable to a mount and whose
    volume is 95% full is given tier [warning] by the source, not [error]:
    the usage test comes first in the chain and hides the mount test. *)
Theorem unmounted_full_volume_is_warning :
  (health_status <$> get_storage_info os_unmounted_full
                       (STORAGE_WARNING_THRESHOLD default_config)
                       (BACKUP_FOLDER default_config)) = Some warning /\
  (is_mounted <$> get_storage_info os_unmounted_full
                    (STORAGE_WARNING_THRESHOLD default_config)
                    (BACKUP_FOLDER default_config)) = Some false /\
  (is_available <$> get_storage_info os_unmounted_full
                      (STORAGE_WARNING_THRESHOLD default_config)
                      (BACKUP_FOLDER default_config)) = Some false /\
  (forall os thr p u,
     os_exists os p = true -> os_disk_usage os p = Returns u ->
     Qle_bool thr (usage_ratio u) = true ->
     health_status <$> get_storage_info os thr p = Some warning).
Proof.
  split; [vm_compute; reflexivity|].
  split; [vm_compute; reflexivity|].
  split; [vm_compute; reflexivity|].
  intros os thr p u Hex Hdu Hfull.
  destruct (get_storage_info_status os thr p u Hex Hdu) as (i & -> & _ & _ & Hs).
  simpl. now rewrite Hs, Hfull.
Qed.

End ProbeClaims.

(** ** Health checker *)
Section HealthClaims.
Import StorageHealthChecker HealthFixtures Fixtures.

Lemma all_pass_is_healthy cfg os probes db k :
  let p := path_of_kind cfg k in
  passed (_check_storage_availability os (probes p) p) = true ->
  passed (_check_io_performance (probes p)) = true ->
  passed (_check_space_utilization cfg os (probes p) p) = true ->
  passed (_check_file_system_integrity (probes p)) = true ->
  passed (_check_music_files_accessibility (probes p)) = true ->
  status_of (run_check cfg os probes db k) = Some healthy.
Proof.
  intros p Ha Hio Hsp Hin Hmu. subst p.
  unfold run_check, perform_comprehensive_health_check.
  rewrite parse_kind_of_name.
  fold (path_of_kind cfg k).
  unfold space_step, music_step.
  rewrite Ha, Hio, Hsp, Hin, Hmu. reflexivity.
Qed.

Lemma any_fail_is_not_healthy cfg os probes db k :
  let p := path_of_kind cfg k in
  passed (_check_storage_availability os (probes p) p) = false \/
  passed (_check_io_performance (probes p)) = false \/
  passed (_check_space_utilization cfg os (probes p) p) = false \/
  passed (_check_file_system_integrity (probes p)) = false \/
  passed (_check_music_files_accessibility (probes p)) = false ->
  status_of (run_check cfg os probes db k) = Some warning \/
  status_of (run_check cfg os probes db k) = Some error.
Proof.
  intros p Hfail. subst p.
  unfold run_check, perform_comprehensive_health_check.
  rewrite parse_kind_of_name.
  fold (path_of_kind cfg k).
  set (p := path_of_kind cfg k) in *.
  unfold space_step, music_step.
  destruct (passed (_check_storage_availability os (probes p) p)); simpl; [|now right].
  destruct (passed (_check_io_performance (probes p))),
           (passed (_check_space_utilization cfg os (probes p) p)),
           (usage_percent (_check_space_utilization cfg os (probes p) p)) as [pct|],
           (passed (_check_file_system_integrity (probes p))),
           (passed (_check_music_files_accessibility (probes p))),
           (inaccessible_count (_check_music_files_accessibility (probes p)));
    simpl; try (destruct (Qltb 95 pct); simpl); auto;
    destruct Hfail as [?|[?|[?|[?|?]]]]; discriminate.
Qed.

(** C3. A run in which the directory round trip fails and the audio-file
    check fails as well ends with overall status [warning]: the status set
    by the integrity failure ([error], with a critical alert) is
    overwritten by the later check.  The two other parts of the claim hold
    on the source: five passing checks give [healthy], and a failing check
    never leaves [healthy]. *)
Theorem later_check_overwrites_error :
  status_of (run_check default_config os_both_ok
               (fun _ => probe_integrity_and_music_fail) empty_db primary)
    = Some warning /\
  map (fun a => (alert_type a, alert_severity a))
      (alerts_of (run_check default_config os_both_ok
                    (fun _ => probe_integrity_and_music_fail) empty_db primary))
    = [("integrity", sev_critical); ("music_files", sev_warning)] /\
  (forall cfg os probes db k,
     let p := path_of_kind cfg k in
     passed (_check_storage_availability os (probes p) p) = true ->
     passed (_check_io_performance (probes p)) = true ->
     passed (_check_space_utilization cfg os (probes p) p) = true ->
     passed (_check_file_system_integrity (probes p)) = true ->
     passed (_check_music_files_accessibility (probes p)) = true ->
     status_of (run_check cfg os probes db k) = Some healthy) /\
  (forall cfg os probes db k,
     let p := path_of_kind cfg k in
     passed (_check_storage_availability os (probes p) p) = false \/
     passed (_check_io_performance (probes p)) = false \/
     passed (_check_space_utilization cfg os (probes p) p) = false \/
     passed (_check_file_system_integrity (probes p)) = false \/
     passed (_check_music_files_accessibility (probes p)) = false ->
     status_of (run_check cfg os probes db k) <> Some healthy).
Proof.
  split; [vm_compute; reflexivity|].
  split; [vm_compute; reflexivity|].
  split; [exact all_pass_is_healthy|].
  intros cfg os probes db k p Hfail.
  destruct (any_fail_is_not_healthy cfg os probes db k Hfail) as [-> | ->];
    discriminate.
Qed.

Lemma gib_zero n : Qeq_bool (gib n) 0 = true -> n = 0.
Proof.
  intros H. apply Qeq_bool_iff in H.
  unfold gib, Qeq, Qdiv, Qmult, Qinv in H.
  change (1024 ^ 3) with 1073741824 in H. simpl in H. lia.
Qed.

Lemma space_check_fails_iff cfg os pr p u :
  os_disk_usage os p = Returns u -> du_total u <> 0 ->
  passed (_check_space_utilization cfg os pr p) = false <->
  (STORAGE_WARNING_THRESHOLD cfg * 100
   <= gib (du_total u - du_free u) / gib (du_total u) * 100)%Q.
Proof.
  intros Hdu Htot. unfold _check_space_utilization. rewrite Hdu.
  destruct (Qeq_bool (gib (du_total u)) 0) eqn:Hz.
  - now apply gib_zero in Hz.
  - simpl. unfold Qltb. rewrite negb_false_iff. apply Qle_bool_iff.
Qed.

Lemma space_step_failing c r pct :
  passed c = false -> usage_percent c = Some pct ->
  space_step c r =
    Returns (add_alert {| alert_type := "space";
                          alert_severity := if Qltb 95 pct then sev_critical else sev_warning;
                          alert_message := HighDiskUsage pct |}
               (set_status (if Qltb 95 pct then error else warning) r)).
Proof.
  intros Hp Hu. unfold space_step. rewrite Hp, Hu. simpl.
  now destruct (Qltb 95 pct).
Qed.

(** C9. On a volume with exactly 95 GiB used of 100 GiB the space check
    fails (95% is above the 90% threshold) and the run raises an alert of
    severity [warning] with overall status [warning], not [critical] and
    [error]: the source escalates only when the reported percentage is
    strictly greater than 95.  The failure condition itself is as claimed:
    the check fails exactly when used/total reaches the warning threshold. *)
Theorem space_alert_at_95_percent :
  passed (_check_space_utilization default_config os_95_percent probe_all_fine
            (SYNCED_FOLDER default_config)) = false /\
  usage_percent (_check_space_utilization default_config os_95_percent probe_all_fine
                   (SYNCED_FOLDER default_config)) = Some (950 # 10) /\
  map (fun a => (alert_type a, alert_severity a))
      (alerts_of (run_check default_config os_95_percent
                    (fun _ => probe_all_fine) empty_db primary))
    = [("space", sev_warning)] /\
  status_of (run_check default_config os_95_percent
               (fun _ => probe_all_fine) empty_db primary) = Some warning /\
  (forall cfg os pr p u,
     os_disk_usage os p = Returns u -> du_total u <> 0 ->
     passed (_check_space_utilization cfg os pr p) = false <->
     (STORAGE_WARNING_THRESHOLD cfg * 100
      <= gib (du_total u - du_free u) / gib (du_total u) * 100)%Q) /\
  (forall c r pct,
     passed c = false -> usage_percent c = Some pct ->
     space_step c r =
       Returns (add_alert {| alert_type := "space";
                             alert_severity :=
                               if Qltb 95 pct then sev_critical else sev_warning;
                             alert_message := HighDiskUsage pct |}
                  (set_status (if Qltb 95 pct then error else warning) r))).
Proof.
  split; [vm_compute; reflexivity|].
  split; [vm_compute; reflexivity|].
  split; [vm_compute; reflexivity|].
  split; [vm_compute; reflexivity|].
  split.
  - intros cfg os pr p u Hdu Htot. now apply space_check_fails_iff.
  - intros c r pct Hp Hu. now apply space_step_failing.
Qed.

End HealthClaims.

(** ** Backup manager *)
Section BackupSongClaims.
Import BackupManager BackupFixtures.

Lemma elem_of_update_where_id f i l r' :
  r' ∈ update_where_id f i l ->
  exists r, r ∈ l /\ r' = (if bool_decide (id r = i) then f r else r).
Proof.
  unfold update_where_id. intros H.
  apply list_elem_of_fmap in H as (r & -> & Hr). eauto.
Qed.

Lemma backup_song_mismatch mgr w st sg content stored :
  files st !! filepath sg = Some content ->
  filepath sg <> fallback_file mgr sg ->
  copy_stored w (fallback_file mgr sg) content = Returns stored ->
  md5_hexdigest w stored <> md5_hexdigest w content ->
  backup_song mgr w st sg =
    (false, {| songs := songs st;
               files := delete (fallback_file mgr sg)
                          (<[fallback_file mgr sg := stored]> (files st));
               backup_sync_log := backup_sync_log st |}).
Proof.
  intros Hsrc Hne Hcopy Hdiff. unfold backup_song.
  fold (fallback_file mgr sg). rewrite Hsrc.
  rewrite bool_decide_eq_false_2 by assumption. rewrite Hcopy.
  unfold get_file_checksum.
  rewrite lookup_insert_eq, lookup_insert_ne by congruence.
  rewrite Hsrc.
  destruct (String.eqb (md5_hexdigest w content) (md5_hexdigest w stored)) eqn:He.
  - apply String.eqb_eq in He. congruence.
  - reflexivity.
Qed.

Lemma backup_song_success mgr w st sg st' :
  backup_song mgr w st sg = (true, st') ->
  exists content stored,
    files st !! filepath sg = Some content /\
    copy_stored w (fallback_file mgr sg) content = Returns stored /\
    md5_hexdigest w stored = md5_hexdigest w content /\
    songs st' = update_where_id
                  (mark_backed_up (fallback_file mgr sg) (md5_hexdigest w content)
                     (current_timestamp w))
                  (id sg) (songs st) /\
    files st' = <[fallback_file mgr sg := stored]> (files st).
Proof.
  unfold backup_song. fold (fallback_file mgr sg).
  destruct (files st !! filepath sg) as [content|] eqn:Hsrc; [|discriminate].
  case_bool_decide as Hsame; [discriminate|].
  destruct (copy_stored w (fallback_file mgr sg) content) as [stored|e] eqn:Hcopy;
    [|discriminate].
  unfold get_file_checksum.
  rewrite lookup_insert_eq, lookup_insert_ne by congruence.
  rewrite Hsrc.
  destruct (String.eqb (md5_hexdigest w content) (md5_hexdigest w stored)) eqn:He;
    simpl; [|discriminate].
  apply String.eqb_eq in He.
  intros [= <-]. simpl. exists content, stored. repeat split; auto.
Qed.

(** C5. When the digest of the copy differs from the digest of the source,
    [backup_song] removes the copy, answers [false] and leaves the catalog
    as it was (so a record at [primary] stays at [primary]); when it
    answers [true], every record of the song is at [both] and carries the
    fallback path, the source digest and the backup date. *)
Theorem backup_song_checks_copy :
  (forall mgr w st sg content stored st' ok,
     files st !! filepath sg = Some content ->
     filepath sg <> fallback_file mgr sg ->
     copy_stored w (fallback_file mgr sg) content = Returns stored ->
     md5_hexdigest w stored <> md5_hexdigest w content ->
     backup_song mgr w st sg = (ok, st') ->
     ok = false /\
     files st' !! fallback_file mgr sg = None /\
     songs st' = songs st /\
     (forall r, r ∈ songs st -> storage_location r = loc_primary ->
        r ∈ songs st' /\ storage_location r = loc_primary)) /\
  (forall mgr w st sg st',
     backup_song mgr w st sg = (true, st') ->
     exists content,
       files st !! filepath sg = Some content /\
       length (songs st') = length (songs st) /\
       (forall r, r ∈ songs st' -> id r = id sg ->
          storage_location r = loc_both /\
          fallback_path r = Some (fallback_file mgr sg) /\
          checksum r = Some (md5_hexdigest w content) /\
          backup_date r = Some (current_timestamp w) /\
          is_backup_synced r = true) /\
       (forall r, r ∈ songs st -> id r = id sg ->
          exists r', r' ∈ songs st' /\ id r' = id sg)).
Proof.
  split.
  - intros mgr w st sg content stored st' ok Hsrc Hne Hcopy Hdiff Hrun.
    rewrite (backup_song_mismatch _ _ _ _ _ _ Hsrc Hne Hcopy Hdiff) in Hrun.
    injection Hrun as <- <-. simpl.
    repeat split; auto. apply lookup_delete_eq.
  - intros mgr w st sg st' Hrun.
    destruct (backup_song_success _ _ _ _ _ Hrun)
      as (content & stored & Hsrc & _ & _ & Hsongs & _).
    exists content. rewrite Hsongs.
    split; [assumption|]. split; [|split].
    + unfold update_where_id. now rewrite length_map.
    + intros r Hr Hid.
      apply elem_of_update_where_id in Hr as (r0 & _ & ->).
      case_bool_decide as Hm; [now repeat split|]. contradiction.
    + intros r Hr Hid. exists (mark_backed_up (fallback_file mgr sg)
                                 (md5_hexdigest w content) (current_timestamp w) r).
      split; [|exact Hid].
      unfold update_where_id. apply list_elem_of_fmap. exists r.
      now rewrite bool_decide_eq_true_2 by assumption.
Qed.

Lemma backup_song_checks_copy_witness :
  (fst (backup_song default_manager truncating_world one_song_store song_a) = false /\
   files (snd (backup_song default_manager truncating_world one_song_store song_a))
     !! fallback_file default_manager song_a = None /\
   songs (snd (backup_song default_manager truncating_world one_song_store song_a))
     = songs one_song_store /\
   (forall r, r ∈ songs one_song_store -> storage_location r = loc_primary ->
      r ∈ songs (snd (backup_song default_manager truncating_world one_song_store song_a))
      /\ storage_location r = loc_primary)) /\
  (exists content,
     files one_song_store !! filepath song_a = Some content /\
     length (songs (snd (backup_song default_manager faithful_world one_song_store song_a)))
       = length (songs one_song_store) /\
     (forall r,
        r ∈ songs (snd (backup_song default_manager faithful_world one_song_store song_a)) ->
        id r = id song_a ->
        storage_location r = loc_both /\
        fallback_path r = Some (fallback_file default_manager song_a) /\
        checksum r = Some (md5_hexdigest faithful_world content) /\
        backup_date r = Some (current_timestamp faithful_world) /\
        is_backup_synced r = true) /\
     (forall r, r ∈ songs one_song_store -> id r = id song_a ->
        exists r',
          r' ∈ songs (snd (backup_song default_manager faithful_world one_song_store song_a))
          /\ id r' = id song_a)).
Proof.
  split.
  - apply (proj1 backup_song_checks_copy default_manager truncating_world one_song_store
             song_a "ID3-audio-bytes" "ID3-").
    + reflexivity.
    + vm_compute. discriminate.
    + reflexivity.
    + simpl. discriminate.
    + apply surjective_pairing.
  - apply (proj2 backup_song_checks_copy default_manager faithful_world one_song_store song_a).
    vm_compute. reflexivity.
Defined.

Example truncated_copy_is_rejected :
  let '(ok, st) := backup_song default_manager truncating_world one_song_store song_a in
  ok = false /\
  files st !! "/home/pi/music_backup/a.mp3" = None /\
  map storage_location (songs st) = [loc_primary] /\
  backup_sync_log st = [].
Proof. vm_compute. split; [reflexivity|]. split; [reflexivity|]. split; reflexivity. Qed.

Example faithful_copy_is_recorded :
  let '(ok, st) := backup_song default_manager faithful_world one_song_store song_a in
  ok = true /\
  files st !! "/home/pi/music_backup/a.mp3" = Some "ID3-audio-bytes" /\
  map storage_location (songs st) = [loc_both] /\
  map fallback_path (songs st) = [Some "/home/pi/music_backup/a.mp3"] /\
  map action (backup_sync_log st) = ["backup_created"].
Proof.
  vm_compute. split; [reflexivity|]. split; [reflexivity|].
  split; [reflexivity|]. split; reflexivity.
Qed.

End BackupSongClaims.

Section BackupSyncFacts.
Import BackupManager BackupFixtures.

Lemma backup_count_cons s l :
  backup_count (s :: l) = (if is_backed_up s then 1 else 0) + backup_count l.
Proof.
  unfold backup_count. rewrite filter_cons.
  destruct (is_backed_up s); case_decide; try congruence; simpl length; lia.
Qed.

Lemma update_where_id_ids f i l :
  (forall s, id (f s) = id s) -> map id (update_where_id f i l) = map id l.
Proof.
  intros Hf. unfold update_where_id. rewrite map_map.
  apply map_ext. intros s. case_bool_decide; auto.
Qed.

Lemma update_where_id_absent f i l :
  i ∉ map id l -> update_where_id f i l = l.
Proof.
  induction l as [|s l IH]; intros Hn; [reflexivity|].
  simpl in *. apply not_elem_of_cons in Hn as [Hne Hn].
  rewrite bool_decide_eq_false_2 by congruence.
  f_equal. now apply IH.
Qed.


Lemma backup_song_songs mgr w st sg ok st' :
  backup_song mgr w st sg = (ok, st') ->
  songs st' = songs st \/
  exists p c,
    songs st' = update_where_id (mark_backed_up p c (current_timestamp w)) (id sg) (songs st).
Proof.
  destruct ok.
  - intros H. apply backup_song_success in H as (c & s & _ & _ & _ & Hs & _). eauto.
  - unfold backup_song.
    destruct (files st !! filepath sg); [|intros [= <-]; auto].
    destruct (if bool_decide _ then _ else _); [|intros [= <-]; auto].
    destruct (negb _); intros [= <-]; auto.
Qed.





(** Every fetched row is a tuple, so the first column read by name raises
    and nothing is evicted. *)
Lemma cleanup_is_noop st : _cleanup_old_backups st = st.
Proof.
  unfold _cleanup_old_backups.
  destruct (songs_to_remove st); destruct st; reflexivity.
Qed.




End BackupSyncFacts.

Section BackupSyncClaims.
Import BackupManager BackupFixtures SyncFixtures.




(** The two runs above reach the bound test.  Under [small_manager] the run
    on [nearly_full_store] copies the most played waiting song, which
    brings the number of backups to the bound of two, and skips the next
    candidate; under [default_manager] the run on [crowded_store] finds
    three candidates and skips the three. *)
Example sync_fills_up_to_the_bound :
  fst (sync_backup_storage small_manager faithful_world nearly_full_store)
  = {| backed_up := 1; failed := 0; skipped := 1; total_backup_songs := 2 |} /\
  map id (filter (fun s => is_backed_up s = true)
            (songs (snd (sync_backup_storage small_manager faithful_world
                           nearly_full_store))))
  = [1; 203].
Proof. vm_compute. repeat split. Qed.

Example sync_skips_at_capacity :
  map id (get_backup_candidates default_manager crowded_store) = [203; 202; 201] /\
  fst (sync_backup_storage default_manager faithful_world crowded_store)
  = {| backed_up := 0; failed := 0; skipped := 3; total_backup_songs := 111 |}.
Proof. vm_compute. repeat split. Qed.

End BackupSyncClaims.

Section VerifyClaims.
Import BackupManager BackupFixtures VerifyFixtures.

Lemma count_verdict_cons w fs v sp l :
  count_verdict w fs v (sp :: l) =
    (if bool_decide (classify w fs sp = v) then 1 else 0) + count_verdict w fs v l.
Proof.
  unfold count_verdict. rewrite filter_cons.
  case_decide; case_bool_decide; try contradiction; simpl length; lia.
Qed.

Lemma verify_step_classify w fs res rows sp :
  verify_step w fs (res, rows) sp =
    match classify w fs sp with
    | Missing =>
      ({| verified := verified res; corrupted := corrupted res;
          missing := missing res + 1 |},
       update_where_id demote_missing (id sp.1) rows)
    | Corrupted =>
      ({| verified := verified res; corrupted := corrupted res + 1;
          missing := missing res |}, rows)
    | Verified =>
      ({| verified := verified res + 1; corrupted := corrupted res;
          missing := missing res |}, rows)
    end.
Proof.
  destruct sp as [sg p]. unfold verify_step, classify, get_file_checksum. simpl.
  destruct (fs !! p) as [content|]; [|reflexivity].
  destruct (stored_checksum sg) as [c|]; [|reflexivity].
  now destruct (String.eqb (md5_hexdigest w content) c).
Qed.

Lemma update_then_map f i ids rows :
  (forall s, id (f s) = id s) -> (forall s, f (f s) = f s) ->
  map (fun s => if bool_decide (id s ∈ ids) then f s else s) (update_where_id f i rows)
  = map (fun s => if bool_decide (id s ∈ i :: ids) then f s else s) rows.
Proof.
  intros Hid Hidem. unfold update_where_id. rewrite map_map. apply map_ext. intros s.
  destruct (decide (id s = i)) as [Heq|Hne].
  - rewrite (bool_decide_eq_true_2 (id s = i)) by assumption.
    rewrite Hid, Hidem.
    rewrite (bool_decide_eq_true_2 (id s ∈ i :: ids))
      by (rewrite Heq; apply list_elem_of_here).
    now case_bool_decide.
  - rewrite (bool_decide_eq_false_2 (id s = i)) by assumption.
    rewrite (bool_decide_ext (id s ∈ i :: ids) (id s ∈ ids)); [reflexivity|].
    rewrite elem_of_cons. tauto.
Qed.

Lemma verify_fold w fs l : forall res rows,
  fold_left (verify_step w fs) l (res, rows) =
    ({| verified := verified res + count_verdict w fs Verified l;
        corrupted := corrupted res + count_verdict w fs Corrupted l;
        missing := missing res + count_verdict w fs Missing l |},
     map (fun s => if bool_decide (id s ∈ missing_ids w fs l) then demote_missing s else s)
         rows).
Proof.
  induction l as [|sp l IH]; intros res rows.
  - destruct res. unfold count_verdict. simpl.
    rewrite !Z.add_0_r. f_equal.
    rewrite <- (map_id rows) at 1. apply map_ext. intros s. reflexivity.
  - cbn [fold_left]. rewrite verify_step_classify.
    rewrite !count_verdict_cons.
    unfold missing_ids. rewrite filter_cons.
    destruct (classify w fs sp) eqn:Hc; rewrite IH; cbn [verified corrupted missing];
      repeat (case_bool_decide; try discriminate); case_decide; try discriminate;
      try contradiction.
    + f_equal; [f_equal; lia|].
      rewrite update_then_map by (intros []; reflexivity). reflexivity.
    + f_equal. f_equal; lia.
    + f_equal. f_equal; lia.
Qed.

Lemma verify_backup_integrity_eq w st :
  verify_backup_integrity w st =
    ({| verified := count_verdict w (files st) Verified (backup_songs st);
        corrupted := count_verdict w (files st) Corrupted (backup_songs st);
        missing := count_verdict w (files st) Missing (backup_songs st) |},
     {| songs :=
          map (fun s => if bool_decide (id s ∈ missing_ids w (files st) (backup_songs st))
                        then demote_missing s else s) (songs st);
        files := files st;
        backup_sync_log := backup_sync_log st |}).
Proof. unfold verify_backup_integrity. now rewrite verify_fold. Qed.

Lemma backup_songs_elem st sg p :
  (sg, p) ∈ backup_songs st <->
  sg ∈ songs st /\
  (storage_location sg = loc_fallback \/ storage_location sg = loc_both) /\
  fallback_path sg = Some p.
Proof.
  unfold backup_songs. rewrite list_elem_of_omap. unfold is_backed_up. split.
  - intros (s & Hs & Hsel).
    destruct (storage_location s) eqn:Hl, (fallback_path s) eqn:Hp;
      simpl in Hsel; try discriminate;
      injection Hsel as <- <-; rewrite Hl; auto.
  - intros (Hs & Hl & Hp). exists sg. split; [exact Hs|].
    rewrite Hp. destruct Hl as [-> | ->]; reflexivity.
Qed.

Lemma classify_missing w fs sp : classify w fs sp = Missing <-> fs !! sp.2 = None.
Proof.
  unfold classify. destruct (fs !! sp.2) as [content|]; [|tauto].
  destruct (stored_checksum sp.1) as [c|]; [|split; discriminate].
  destruct (String.eqb _ c); split; discriminate.
Qed.

Lemma stored_checksum_some sg c :
  stored_checksum sg = Some c <-> checksum sg = Some c /\ c <> EmptyString.
Proof.
  unfold stored_checksum. destruct (checksum sg) as [k|].
  - case_bool_decide as Hk; split.
    + discriminate.
    + intros ([= ->] & Hn). contradiction.
    + intros [= ->]. auto.
    + intros ([= ->] & _). reflexivity.
  - split; [discriminate|]. intros (H & _). discriminate.
Qed.

Lemma classify_corrupted w fs sp :
  classify w fs sp = Corrupted <->
  exists content c,
    fs !! sp.2 = Some content /\ checksum sp.1 = Some c /\ c <> EmptyString /\
    md5_hexdigest w content <> c.
Proof.
  unfold classify. split.
  - destruct (fs !! sp.2) as [content|]; [|discriminate].
    destruct (stored_checksum sp.1) as [c|] eqn:Hc; [|discriminate].
    destruct (String.eqb _ c) eqn:He; [discriminate|]. intros _.
    apply stored_checksum_some in Hc as [Hc Hn].
    apply String.eqb_neq in He. eauto 10.
  - intros (content & c & -> & Hc & Hn & Hd).
    rewrite (proj2 (stored_checksum_some _ _) (conj Hc Hn)).
    now rewrite (proj2 (String.eqb_neq _ _) Hd).
Qed.

Lemma unique_ids_same l a b :
  unique_ids l -> a ∈ l -> b ∈ l -> id a = id b -> a = b.
Proof.
  unfold unique_ids. induction l as [|x l IH]; intros Hnd Ha Hb Hid.
  - now apply not_elem_of_nil in Ha.
  - simpl in Hnd. apply NoDup_cons in Hnd as [Hx Hnd].
    apply elem_of_cons in Ha as [->|Ha]; apply elem_of_cons in Hb as [->|Hb].
    + reflexivity.
    + exfalso. apply Hx. rewrite Hid. apply list_elem_of_fmap. eauto.
    + exfalso. apply Hx. rewrite <- Hid. apply list_elem_of_fmap. eauto.
    + now apply IH.
Qed.

Lemma missing_ids_elem w fs l i :
  i ∈ missing_ids w fs l <-> exists sp, sp ∈ l /\ classify w fs sp = Missing /\ id sp.1 = i.
Proof.
  unfold missing_ids. rewrite list_elem_of_fmap. split.
  - intros (sp & -> & Hsp). apply list_elem_of_filter in Hsp as [Hc Hsp]. eauto.
  - intros (sp & Hsp & Hc & <-). exists sp. split; [reflexivity|].
    apply list_elem_of_filter. auto.
Qed.

(** C6, as stated, fails: two backups whose files no longer hold the
    original bytes are counted as verified, because no checksum is stored
    for them (NULL, or the empty string) and the comparison is skipped. *)
Lemma verify_passes_backups_without_checksum :
  length (backup_songs unchecked_store) = 2%nat /\
  Forall (differs_from_stored faithful_world (files unchecked_store))
         (backup_songs unchecked_store) /\
  corrupted (fst (verify_backup_integrity faithful_world unchecked_store)) = 0 /\
  verified (fst (verify_backup_integrity faithful_world unchecked_store)) = 2.
Proof.
  split; [reflexivity|]. split.
  - apply (bool_decide_unpack _). vm_compute. reflexivity.
  - split; vm_compute; reflexivity.
Qed.

(** C6, amended.  The rows examined are those at [fallback] or [both] with
    a fallback path.  A row whose file is absent is counted as missing and
    every record with its id is demoted to [primary] with no fallback
    path; a row whose file is present is counted as corrupted exactly when
    a non-empty checksum is stored and the recomputed one differs from it
    (neither the catalog record nor any file is changed for it), and as
    verified otherwise, which includes every row with no stored checksum. *)
Theorem verify_counts_checked_backups :
  forall w st,
    let out := verify_backup_integrity w st in
    let fs := files st in
    let selected := backup_songs st in
    (forall sg p,
       (sg, p) ∈ selected <->
       sg ∈ songs st /\
       (storage_location sg = loc_fallback \/ storage_location sg = loc_both) /\
       fallback_path sg = Some p) /\
    missing (fst out) = count_verdict w fs Missing selected /\
    corrupted (fst out) = count_verdict w fs Corrupted selected /\
    verified (fst out) = count_verdict w fs Verified selected /\
    (forall sp, classify w fs sp = Missing <-> fs !! sp.2 = None) /\
    (forall sp,
       classify w fs sp = Corrupted <->
       exists content c,
         fs !! sp.2 = Some content /\ checksum sp.1 = Some c /\ c <> EmptyString /\
         md5_hexdigest w content <> c) /\
    files (snd out) = fs /\
    (forall sp r,
       sp ∈ selected -> classify w fs sp = Missing ->
       r ∈ songs (snd out) -> id r = id sp.1 ->
       storage_location r = loc_primary /\ fallback_path r = None /\
       is_backup_synced r = false) /\
    (unique_ids (songs st) ->
     forall sp, sp ∈ selected -> classify w fs sp <> Missing -> sp.1 ∈ songs (snd out)).
Proof.
  intros w st. cbv zeta. rewrite verify_backup_integrity_eq. cbn [fst snd songs files
    missing corrupted verified].
  split; [apply backup_songs_elem|].
  split; [reflexivity|]. split; [reflexivity|]. split; [reflexivity|].
  split; [apply classify_missing|]. split; [apply classify_corrupted|].
  split; [reflexivity|]. split.
  - intros sp r Hsp Hc Hr Hid.
    apply list_elem_of_fmap in Hr as (s & -> & Hs).
    assert (Hin : id s ∈ missing_ids w (files st) (backup_songs st)).
    { apply missing_ids_elem. exists sp. repeat split; try assumption.
      destruct (bool_decide _) in Hid; simpl in Hid; congruence. }
    rewrite (bool_decide_eq_true_2 _ Hin). repeat split.
  - intros Hnd [sg p] Hsp Hc. simpl.
    apply list_elem_of_fmap. exists sg.
    pose proof (proj1 (backup_songs_elem _ _ _) Hsp) as (Hsg & _ & Hp).
    split; [|exact Hsg].
    rewrite bool_decide_eq_false_2; [reflexivity|].
    intros Hin. apply missing_ids_elem in Hin as ([sg' p'] & Hsp' & Hc' & Hid).
    simpl in Hid.
    pose proof (proj1 (backup_songs_elem _ _ _) Hsp') as (Hsg' & _ & Hp').
    assert (sg' = sg) as -> by (eapply unique_ids_same; eauto).
    assert (p' = p) as -> by congruence.
    contradiction.
Qed.

Lemma verify_counts_checked_backups_witness :
  let out := verify_backup_integrity faithful_world mixed_store in
  missing (fst out) = 1 /\ corrupted (fst out) = 1 /\ verified (fst out) = 1 /\
  files (snd out) = files mixed_store /\
  (forall sp, sp ∈ backup_songs mixed_store ->
     classify faithful_world (files mixed_store) sp <> Missing ->
     sp.1 ∈ songs (snd out)).
Proof.
  pose proof (verify_counts_checked_backups faithful_world mixed_store)
    as (_ & Hm & Hc & Hv & _ & _ & Hf & _ & Hkeep).
  cbv zeta in *.
  split; [rewrite Hm; vm_compute; reflexivity|].
  split; [rewrite Hc; vm_compute; reflexivity|].
  split; [rewrite Hv; vm_compute; reflexivity|].
  split; [exact Hf|].
  apply Hkeep. apply (bool_decide_unpack _). vm_compute. reflexivity.
Defined.

Example verify_mixed_catalog :
  let '(res, st) := verify_backup_integrity faithful_world mixed_store in
  res = {| verified := 1; corrupted := 1; missing := 1 |} /\
  map storage_location (songs st) = [loc_both; loc_both; loc_primary] /\
  map fallback_path (songs st)
    = [Some "/home/pi/music_backup/a.mp3"; Some "/home/pi/music_backup/b.mp3"; None].
Proof. vm_compute. split; [reflexivity|]. split; reflexivity. Qed.

End VerifyClaims.

(** * Further properties of the three services *)

(** ** Storage monitor: automatic switching and the probe *)
Section MonitorExtras.
Import StorageMonitor Fixtures.

Lemma auto_switch_storage_eq os m :
  auto_switch_storage os m =
    if decide_switch (current_storage m) (probe os m primary) (probe os m fallback) then
      match (if available (probe os m primary) then Some primary
             else if available (probe os m fallback) then Some fallback
             else None) with
      | Some recommended =>
        let '(r, m') := switch_storage os m (kind_name recommended) in (Some r, m')
      | None => (None, m)
      end
    else (None, m).
Proof. reflexivity. Qed.

Lemma recommended_storage_eq os m :
  recommended_storage (check_storage_health os m) =
    if available (probe os m primary) then Some primary
    else if available (probe os m fallback) then Some fallback
    else None.
Proof. reflexivity. Qed.

Lemma probe_independent_of_state os m m' k :
  primary_path m' = primary_path m -> fallback_path m' = fallback_path m ->
  warning_threshold m' = warning_threshold m ->
  probe os m' k = probe os m k.
Proof. intros Hp Hf Ht. unfold probe. rewrite Hp, Hf, Ht. reflexivity. Qed.

Lemma auto_switch_keeps_probe os m k :
  probe os (snd (auto_switch_storage os m)) k = probe os m k.
Proof.
  rewrite auto_switch_storage_eq.
  destruct (decide_switch _ _ _); [|reflexivity].
  destruct (if available (probe os m primary) then _ else _) as [target|]; [|reflexivity].
  pose proof (probe_after_switch os m target k) as H.
  destruct (switch_storage os m (kind_name target)) as [r m']. exact H.
Qed.

(** When a switch is due, [auto_switch_storage] answers what
    [switch_storage] answers for the recommended endpoint. *)
Lemma auto_switch_storage_switches os m k :
  should_switch (check_storage_health os m) = true ->
  recommended_storage (check_storage_health os m) = Some k ->
  auto_switch_storage os m
  = (Some (fst (switch_storage os m (kind_name k))), snd (switch_storage os m (kind_name k))).
Proof.
  intros Hs Hr. unfold auto_switch_storage. rewrite Hs, Hr.
  now destruct (switch_storage os m (kind_name k)).
Qed.

(** X1. Whenever one of the two endpoints is available, [auto_switch_storage]
    leaves [current_storage] on the recommended endpoint: primary if its
    probe reports it available, fallback otherwise. *)
Theorem auto_switch_follows_recommendation :
  forall os m k,
    recommended_storage (check_storage_health os m) = Some k ->
    current_storage (snd (auto_switch_storage os m)) = k.
Proof.
  intros os m k Hr.
  destruct (should_switch (check_storage_health os m)) eqn:Hs.
  - rewrite (auto_switch_storage_switches _ _ _ Hs Hr). cbn [snd].
    apply switch_storage_done.
    rewrite recommended_storage_eq in Hr.
    destruct (available (probe os m primary)) eqn:Hp; [now injection Hr as <-|].
    destruct (available (probe os m fallback)) eqn:Hf; [now injection Hr as <-|discriminate].
  - unfold auto_switch_storage. rewrite Hs. cbn [snd].
    rewrite recommended_storage_eq in Hr.
    change (should_switch (check_storage_health os m))
      with (decide_switch (current_storage m) (probe os m primary) (probe os m fallback))
      in Hs.
    unfold decide_switch in Hs.
    destruct (current_storage m), (available (probe os m primary)),
             (available (probe os m fallback)); cbn in Hs; congruence.
Qed.

Lemma auto_switch_follows_recommendation_witness :
  current_storage (snd (auto_switch_storage os_primary_gone fresh_monitor)) = fallback.
Proof.
  apply (auto_switch_follows_recommendation os_primary_gone fresh_monitor fallback).
  vm_compute. reflexivity.
Defined.

(** X2. On one state of the machine, [auto_switch_storage] either does
    nothing and answers [None], or performs a successful switch to the
    other endpoint; it never answers with a failure.  A switch appends at
    most one event: the [switch] row when sqlite accepts the INSERT,
    nothing when it refuses it.  Called again on the same machine it does
    nothing: one pass settles the monitor. *)
Theorem auto_switch_settles :
  forall os m,
    ((fst (auto_switch_storage os m) = None /\ snd (auto_switch_storage os m) = m) \/
     (exists msg target,
        fst (auto_switch_storage os m) = Some (SwitchDone msg (current_storage m) target) /\
        target <> current_storage m /\
        current_storage (snd (auto_switch_storage os m)) = target /\
        storage_events (snd (auto_switch_storage os m))
          = storage_events m ++ logged os (switch_event (current_storage m) target))) /\
    auto_switch_storage os (snd (auto_switch_storage os m))
      = (None, snd (auto_switch_storage os m)).
Proof.
  intros os m. split.
  - destruct (should_switch (check_storage_health os m)) eqn:Hs;
      [|left; unfold auto_switch_storage; now rewrite Hs].
    destruct (recommended_storage (check_storage_health os m)) as [k|] eqn:Hr;
      [|left; unfold auto_switch_storage; now rewrite Hs, Hr].
    right. rewrite (auto_switch_storage_switches _ _ _ Hs Hr). cbn [fst snd].
    assert (Hk : available (probe os m k) = true /\ k <> current_storage m).
    { rewrite recommended_storage_eq in Hr.
      change (should_switch (check_storage_health os m))
        with (decide_switch (current_storage m) (probe os m primary) (probe os m fallback))
        in Hs.
      unfold decide_switch in Hs.
      destruct (current_storage m), (available (probe os m primary)) eqn:Hp,
               (available (probe os m fallback)) eqn:Hf; cbn in Hs;
        try discriminate; injection Hr as <-; split; congruence. }
    destruct Hk as [Hav Hne].
    destruct (switch_storage_done _ _ _ Hav) as (Hres & Hc & He & _).
    eexists _, k. rewrite Hres. repeat split; assumption.
  - rewrite (auto_switch_storage_eq os (snd _)).
    rewrite !auto_switch_keeps_probe.
    destruct (recommended_storage (check_storage_health os m)) as [k|] eqn:Hr.
    + rewrite (auto_switch_follows_recommendation _ _ _ Hr).
      rewrite recommended_storage_eq in Hr. unfold decide_switch.
      destruct (available (probe os m primary)).
      * injection Hr as <-. reflexivity.
      * destruct (available (probe os m fallback)); [|discriminate].
        injection Hr as <-. reflexivity.
    + rewrite recommended_storage_eq in Hr. unfold decide_switch.
      destruct (available (probe os m primary)); [discriminate|].
      destruct (available (probe os m fallback)); [discriminate|].
      now destruct (current_storage _).
Qed.

(** With the database locked the failover still happens, and leaves no
    trace in [storage_events]. *)
Example failover_with_database_locked :
  let out := auto_switch_storage os_database_locked
               (set_current_storage fresh_monitor fallback) in
  fst out = Some (SwitchDone "Switched to primary storage" fallback primary) /\
  current_storage (snd out) = primary /\
  storage_events (snd out) = [].
Proof. vm_compute. repeat split. Qed.

Lemma is_path_mounted_readable os p mount_points chain :
  os_mountpoints os = Returns mount_points -> os_resolve os p = Returns chain ->
  os_exists os p = true -> os_readable os p = true ->
  _is_path_mounted os p = true.
Proof.
  intros Hm Hr He Hrd. unfold _is_path_mounted. rewrite Hm, Hr, He, Hrd.
  now destruct (existsb _ chain).
Qed.

(** X3. The probe reports an endpoint available exactly when the path
    exists, its space can be queried, [_is_path_mounted] holds and the path
    is readable and writable.  When the two system queries of
    [_is_path_mounted] answer, the mount table is immaterial: an existing
    readable path counts as mounted whatever the mount points are. *)
Theorem probe_availability :
  (forall os thr p,
     available (get_storage_info os thr p) = true <->
     os_exists os p = true /\ (exists u, os_disk_usage os p = Returns u) /\
     _is_path_mounted os p = true /\
     os_readable os p = true /\ os_writable os p = true) /\
  (forall os thr p mount_points chain u,
     os_mountpoints os = Returns mount_points -> os_resolve os p = Returns chain ->
     os_disk_usage os p = Returns u ->
     available (get_storage_info os thr p)
     = os_exists os p && os_readable os p && os_writable os p).
Proof.
  split.
  - intros os thr p. unfold get_storage_info, available, os_access_rw.
    destruct (os_exists os p); simpl.
    + destruct (os_disk_usage os p) as [u|e]; simpl.
      * rewrite !andb_true_iff. split.
        -- intros (Hm & Hr & Hw). eauto 10.
        -- intros (_ & _ & Hm & Hr & Hw). auto.
      * split; [discriminate|]. intros (_ & (u & Hu) & _). discriminate.
    + split; [discriminate|]. intros (He & _). discriminate.
  - intros os thr p mp chain u Hm Hr Hu.
    unfold get_storage_info, available, os_access_rw.
    destruct (os_exists os p) eqn:He; simpl; [|reflexivity].
    rewrite Hu. simpl.
    destruct (os_readable os p) eqn:Hrd; simpl.
    + now rewrite (is_path_mounted_readable _ _ _ _ Hm Hr He Hrd).
    + apply andb_false_r.
Qed.

Lemma available_is_not_error os thr p i :
  get_storage_info os thr p = Some i -> is_available i = true -> health_status i <> error.
Proof.
  unfold get_storage_info.
  destruct (os_exists os p); simpl; [|discriminate].
  destruct (os_disk_usage os p) as [u|e]; intros [= <-]; simpl; [|discriminate].
  intros Hav. apply andb_true_iff in Hav as [Hm _]. rewrite Hm. simpl.
  now destruct (Qle_bool _ _).
Qed.

(** X4. An endpoint that the probe reports available never has tier
    [error], so the overall health of a snapshot is decided by availability
    alone: [healthy] when both endpoints are available, [warning] when
    exactly one is and both paths exist, [error] otherwise - in particular
    whenever one of the two paths does not exist. *)
Theorem overall_health_by_availability :
  forall os m,
    overall_health (check_storage_health os m) =
      match probe os m primary, probe os m fallback with
      | Some p, Some f =>
        if is_available p && is_available f then healthy
        else if is_available p || is_available f then warning
        else error
      | _, _ => error
      end.
Proof.
  intros os m. unfold check_storage_health. cbn [overall_health].
  unfold _get_overall_health. fold (probe os m primary). fold (probe os m fallback).
  destruct (probe os m primary) as [p|] eqn:Hp; [|reflexivity].
  destruct (probe os m fallback) as [f|] eqn:Hf; [|reflexivity].
  assert (Hpe : is_available p = true -> bool_decide (health_status p = error) = false).
  { intros H. apply bool_decide_eq_false. eapply available_is_not_error; eauto. }
  assert (Hfe : is_available f = true -> bool_decide (health_status f = error) = false).
  { intros H. apply bool_decide_eq_false. eapply available_is_not_error; eauto. }
  destruct (is_available p), (is_available f); simpl;
    rewrite ?Hpe, ?Hfe by reflexivity; reflexivity.
Qed.

Lemma update_storage_status_primary_gone os m :
  probe os m primary = None ->
  status_primary (_update_storage_status os m) = status_primary m.
Proof.
  intros Hgone. unfold _update_storage_status. cbv zeta.
  destruct (os_sqlite_write os "storage_status"); [|reflexivity].
  cbn [status_primary]. change (hc_primary (check_storage_health os m))
    with (probe os m primary). now rewrite Hgone.
Qed.

(** X6. A pass of the monitoring loop on a machine whose primary path has
    disappeared while the fallback endpoint is available moves the monitor
    to fallback, but leaves the persisted row of the primary endpoint as it
    was: the snapshot of an endpoint is refreshed only when its path
    exists.  The pass appends the [switch] event when sqlite accepts the
    INSERT, and nothing when it refuses it. *)
Theorem vanished_primary_keeps_stale_row :
  forall os m,
    current_storage m = primary ->
    os_exists os (primary_path m) = false ->
    available (probe os m fallback) = true ->
    current_storage (snd (monitor_iteration os m)) = fallback /\
    status_primary (snd (monitor_iteration os m)) = status_primary m /\
    storage_events (snd (monitor_iteration os m))
      = storage_events m ++ logged os (switch_event primary fallback).
Proof.
  intros os m Hc He Hf. unfold monitor_iteration.
  set (m1 := _update_storage_status os m).
  destruct (update_storage_status_keeps os m) as (Hc1 & Hev1 & Hp1 & Hf1 & Ht1).
  fold m1 in Hc1, Hev1, Hp1, Hf1, Ht1.
  assert (Hgone : probe os m primary = None).
  { unfold probe. apply get_storage_info_missing. exact He. }
  assert (Hprobe : forall k, probe os m1 k = probe os m k)
    by (intros k; now apply probe_independent_of_state).
  assert (Hs : should_switch (check_storage_health os m1) = true).
  { change (should_switch (check_storage_health os m1))
      with (decide_switch (current_storage m1) (probe os m1 primary) (probe os m1 fallback)).
    rewrite Hc1, Hc, !Hprobe, Hgone. unfold decide_switch. cbn [available negb].
    now rewrite Hf. }
  assert (Hr : recommended_storage (check_storage_health os m1) = Some fallback).
  { rewrite recommended_storage_eq, !Hprobe, Hgone. cbn [available]. now rewrite Hf. }
  rewrite (auto_switch_storage_switches _ _ _ Hs Hr). cbn [snd].
  assert (Hf' : available (probe os m1 fallback) = true) by now rewrite Hprobe.
  destruct (switch_storage_done _ _ _ Hf') as (_ & Hcur & Hev & _).
  split; [exact Hcur|]. split; [|now rewrite Hev, Hev1, Hc1, Hc].
  rewrite (switch_storage_available _ _ _ Hf'). cbn [snd].
  set (m2 := _log_storage_event _ _ _ _ _).
  destruct (log_storage_event_keeps os (set_current_storage m1 fallback) "switch"
              (kind_name fallback)
              ("Switched from " ++ kind_name (current_storage m1) ++ " to "
               ++ kind_name fallback))
    as (_ & _ & Hp2 & Hf2 & Ht2 & Hrow2 & _).
  fold m2 in Hp2, Hf2, Ht2, Hrow2.
  rewrite update_storage_status_primary_gone.
  - rewrite Hrow2. cbn [set_current_storage status_primary].
    now apply update_storage_status_primary_gone.
  - rewrite (probe_independent_of_state os m1 m2 primary Hp2 Hf2 Ht2).
    now rewrite Hprobe.
Qed.

Lemma vanished_primary_keeps_stale_row_witness :
  current_storage (snd (monitor_iteration os_primary_gone fresh_monitor)) = fallback /\
  status_primary (snd (monitor_iteration os_primary_gone fresh_monitor))
    = status_primary fresh_monitor /\
  storage_events (snd (monitor_iteration os_primary_gone fresh_monitor))
    = storage_events fresh_monitor ++ logged os_primary_gone (switch_event primary fallback).
Proof.
  apply (vanished_primary_keeps_stale_row os_primary_gone fresh_monitor).
  - reflexivity.
  - reflexivity.
  - vm_compute. reflexivity.
Defined.

(** On that machine the database accepts the writes: the pass leaves the
    row of the switch, and the row of the fallback endpoint is refreshed. *)
Example vanished_primary_pass :
  let m := snd (monitor_iteration os_primary_gone fresh_monitor) in
  map message (storage_events m) = ["Switched from primary to fallback"] /\
  status_primary m = initial_row /\
  row_available (status_fallback m) = true.
Proof. vm_compute. repeat split. Qed.

End MonitorExtras.

(** ** Rounding and the reported usage percentage *)
Section RoundingFacts.
Import StorageMonitor Fixtures.

Lemma round_half_even_bounds (x : Q) (a b : Z) :
  (inject_Z a <= x)%Q -> (x <= inject_Z b)%Q ->
  a <= round_half_even x <= b.
Proof.
  intros Ha Hb.
  pose proof (Qfloor_le x) as Hfl.
  assert (Hfa : a <= Qfloor x).
  { rewrite <- (Qfloor_Z a). now apply Qfloor_resp_le. }
  assert (Hfb : Qfloor x <= b).
  { rewrite <- (Qfloor_Z b). now apply Qfloor_resp_le. }
  unfold round_half_even.
  assert (Hup : (1 # 2 <= x - inject_Z (Qfloor x))%Q -> Qfloor x + 1 <= b).
  { intros Hhalf.
    assert (Hlt : (inject_Z (Qfloor x) < inject_Z b)%Q).
    { apply Qlt_le_trans with x; [|exact Hb].
      apply Qlt_minus_iff. apply Qlt_le_trans with (1 # 2); [reflexivity|].
      unfold Qminus in Hhalf. exact Hhalf. }
    rewrite <- Zlt_Qlt in Hlt. lia. }
  destruct (Qcompare (x - inject_Z (Qfloor x)) (1 # 2)) eqn:Hcmp.
  - apply Qeq_alt in Hcmp.
    destruct (Z.even (Qfloor x)); [lia|].
    split; [lia|]. apply Hup. rewrite Hcmp. apply Qle_refl.
  - lia.
  - apply Qgt_alt in Hcmp. split; [lia|]. apply Hup. now apply Qlt_le_weak.
Qed.

Lemma py_round_1_bounds (x : Q) :
  (0 <= x)%Q -> (x <= 100)%Q -> (0 <= py_round x 1)%Q /\ (py_round x 1 <= 100)%Q.
Proof.
  intros H0 H100. unfold py_round.
  change (inject_Z (10 ^ Z.of_nat 1)) with (inject_Z 10).
  assert (Hr : 0 <= round_half_even (x * inject_Z 10) <= 1000).
  { apply round_half_even_bounds.
    - change (inject_Z 0) with (0 * inject_Z 10)%Q.
      apply Qmult_le_compat_r; [exact H0|discriminate].
    - change (inject_Z 1000) with (100 * inject_Z 10)%Q.
      apply Qmult_le_compat_r; [exact H100|discriminate]. }
  set (r := round_half_even (x * inject_Z 10)) in *.
  unfold Qle, Qdiv, Qmult, Qinv, inject_Z. simpl. lia.
Qed.

Lemma gib_le a b : a <= b -> (gib a <= gib b)%Q.
Proof.
  intros H. unfold gib, Qle, Qdiv, Qmult, Qinv, inject_Z.
  change (1024 ^ 3) with 1073741824. simpl. lia.
Qed.

Lemma gib_0 : (gib 0 == 0)%Q.
Proof. reflexivity. Qed.

Lemma usage_ratio_bounds u :
  0 <= du_free u <= du_total u ->
  (0 <= usage_ratio u)%Q /\ (usage_ratio u <= 1)%Q.
Proof.
  intros [Hf Ht]. unfold usage_ratio, Qltb.
  destruct (Qle_bool (gib (du_total u)) 0) eqn:Hz; simpl.
  - split; [apply Qle_refl|discriminate].
  - assert (Hpos : (0 < gib (du_total u))%Q).
    { apply Qnot_le_lt. intros Hle. apply Qle_bool_iff in Hle. congruence. }
    split.
    + apply Qle_shift_div_l; [exact Hpos|].
      rewrite Qmult_0_l. rewrite <- gib_0. apply gib_le. lia.
    + apply Qle_shift_div_r; [exact Hpos|].
      rewrite Qmult_1_l. apply gib_le. lia.
Qed.

(** X5. The usage percentage reported by the probe lies between 0 and 100
    whenever the space report of the volume is consistent (free space
    between 0 and the total), also for an empty report and for the endpoint
    built from an OS error. *)
Theorem usage_percent_in_range :
  forall os thr p i,
    (forall u, os_disk_usage os p = Returns u -> 0 <= du_free u <= du_total u) ->
    get_storage_info os thr p = Some i ->
    (0 <= usage_percent i)%Q /\ (usage_percent i <= 100)%Q.
Proof.
  intros os thr p i Hu. unfold get_storage_info.
  destruct (os_exists os p); simpl; [|discriminate].
  destruct (os_disk_usage os p) as [u|e] eqn:Hdu; intros [= <-]; simpl.
  - fold (usage_ratio u).
    destruct (usage_ratio_bounds u (Hu u eq_refl)) as [H0 H1].
    apply py_round_1_bounds.
    + change 0%Q with (0 * 100)%Q. apply Qmult_le_compat_r; [exact H0|discriminate].
    + change 100%Q with (1 * 100)%Q at 2.
      apply Qmult_le_compat_r; [exact H1|discriminate].
  - split; discriminate.
Qed.

Lemma usage_percent_in_range_witness :
  exists i,
    get_storage_info os_both_ok (9 # 10) "/media/ssd/synced" = Some i /\
    (0 <= usage_percent i)%Q /\ (usage_percent i <= 100)%Q.
Proof.
  eexists. split; [reflexivity|].
  eapply (usage_percent_in_range os_both_ok (9 # 10) "/media/ssd/synced"); [|reflexivity].
  intros u [= <-]. simpl. lia.
Defined.

End RoundingFacts.

(** ** Storage monitor: issue detection and recommendations *)
Section DiagnosisFacts.
Import StorageMonitor Fixtures.

Lemma critical_count_app l1 l2 :
  critical_count (l1 ++ l2) = (critical_count l1 + critical_count l2)%nat.
Proof. unfold critical_count. now rewrite filter_app, length_app. Qed.

Lemma detect_storage_issues_eq os m :
  detect_storage_issues os m =
    let issues := issues_of_endpoint os m primary ++ issues_of_endpoint os m fallback in
    if (2 <=? critical_count issues)%nat then issues ++ [system_issue] else issues.
Proof. reflexivity. Qed.

Lemma issues_of_failed_query os m k e :
  os_exists os (match k with primary => primary_path m | fallback => fallback_path m end)
    = true ->
  os_disk_usage os (match k with primary => primary_path m | fallback => fallback_path m end)
    = Raises e ->
  map issue_what (issues_of_endpoint os m k)
    = [StorageNotAvailableIssue; StorageHealthCheckFailed] /\
  critical_count (issues_of_endpoint os m k) = 2%nat.
Proof.
  intros He Hd. unfold issues_of_endpoint, get_storage_info. rewrite He, Hd.
  split; reflexivity.
Qed.

(** X7. [detect_storage_issues] counts critical issues, not endpoints: a
    single endpoint whose space query fails is reported both as unavailable
    and as having failed its health check, and these two entries alone make
    the report end with the system-wide issue "Both primary and fallback
    storage have critical issues", whatever the state of the other
    endpoint. *)
Theorem one_failed_endpoint_raises_system_issue :
  forall os m k e,
    os_exists os (match k with primary => primary_path m | fallback => fallback_path m end)
      = true ->
    os_disk_usage os (match k with primary => primary_path m | fallback => fallback_path m end)
      = Raises e ->
    last (detect_storage_issues os m) = Some system_issue.
Proof.
  intros os m k e He Hd.
  destruct (issues_of_failed_query os m k e He Hd) as [_ Hc].
  rewrite detect_storage_issues_eq. cbv zeta.
  assert (Hge : (2 <= critical_count (issues_of_endpoint os m primary ++
                                      issues_of_endpoint os m fallback))%nat).
  { rewrite critical_count_app. destruct k; lia. }
  apply Nat.leb_le in Hge. rewrite Hge. apply last_snoc.
Qed.

Lemma one_failed_endpoint_raises_system_issue_witness :
  last (detect_storage_issues os_primary_query_fails fresh_monitor) = Some system_issue.
Proof.
  apply (one_failed_endpoint_raises_system_issue os_primary_query_fails fresh_monitor
           primary "[Errno 5] Input/output error"); reflexivity.
Defined.

Example healthy_fallback_next_to_failed_primary :
  issues_of_endpoint os_primary_query_fails fresh_monitor fallback = [].
Proof. vm_compute. reflexivity. Qed.

(** X8. [get_storage_recommendations] answers with the empty list when the
    primary endpoint exists but is unavailable and the fallback path does
    not exist: the read of the fallback's availability raises on [None] and
    the handler discards what had been collected, here the advice to free
    space on a primary volume more than 80% full. *)
Theorem recommendations_lost_without_fallback :
  forall os m p,
    probe os m primary = Some p -> is_available p = false ->
    os_exists os (fallback_path m) = false ->
    get_storage_recommendations os m = [].
Proof.
  intros os m p Hp Hav He.
  unfold get_storage_recommendations, primary_recommendations, check_storage_health.
  cbn [hc_primary hc_fallback].
  fold (probe os m primary). rewrite Hp, Hav. simpl negb. cbv iota.
  now rewrite (get_storage_info_missing _ _ _ He).
Qed.

Lemma recommendations_lost_without_fallback_witness :
  Qltb 80 (default 0%Q (usage_percent <$>
             probe os_primary_readonly_no_fallback fresh_monitor primary)) = true /\
  get_storage_recommendations os_primary_readonly_no_fallback fresh_monitor = [].
Proof.
  split; [vm_compute; reflexivity|].
  eapply (recommendations_lost_without_fallback os_primary_readonly_no_fallback
            fresh_monitor).
  - reflexivity.
  - vm_compute. reflexivity.
  - reflexivity.
Defined.

(** X9. When the call does not fail, the failover advice is given exactly
    when the primary endpoint exists and is unavailable while the fallback
    endpoint is available. *)
Theorem failover_advice_exactly :
  forall os m,
    probe os m fallback <> None ->
    (rec_failover ∈ get_storage_recommendations os m <->
     exists p, probe os m primary = Some p /\ is_available p = false /\
               available (probe os m fallback) = true).
Proof.
  intros os m Hf.
  unfold get_storage_recommendations, primary_recommendations, check_storage_health.
  cbn [hc_primary hc_fallback overall_health].
  fold (probe os m primary). fold (probe os m fallback).
  destruct (probe os m fallback) as [f|]; [clear Hf|contradiction].
  cbn [available].
  assert (Hopt : forall pct, rec_failover <> rec_optimization pct) by discriminate.
  assert (Hmnt : forall pct, rec_failover <> rec_maintenance pct) by discriminate.
  assert (Hmon : rec_failover <> rec_monitoring) by discriminate.
  destruct (probe os m primary) as [p|]; cbn [negb].
  - destruct (is_available p) eqn:Hap; cbn [negb].
    + split.
      * intros Hin. exfalso.
        repeat (apply elem_of_app in Hin as [Hin|Hin]);
          repeat match type of Hin with
                 | _ ∈ (if ?c then _ else _) => destruct c
                 end;
          try (apply list_elem_of_singleton in Hin; congruence);
          try (now apply not_elem_of_nil in Hin).
      * intros (p' & [= <-] & Hf' & _). congruence.
    + split.
      * intros Hin. exists p. split; [reflexivity|]. split; [exact Hap|].
        destruct (is_available f); [reflexivity|]. exfalso.
        repeat (apply elem_of_app in Hin as [Hin|Hin]);
          repeat match type of Hin with
                 | _ ∈ (if ?c then _ else _) => destruct c
                 end;
          try (apply list_elem_of_singleton in Hin; congruence);
          try (now apply not_elem_of_nil in Hin).
      * intros (p' & _ & _ & ->).
        apply elem_of_app. left. apply elem_of_app. right.
        apply list_elem_of_singleton. reflexivity.
  - split.
    + intros Hin. exfalso. rewrite app_nil_l in Hin.
      repeat (apply elem_of_app in Hin as [Hin|Hin]);
        repeat match type of Hin with
               | _ ∈ (if ?c then _ else _) => destruct c
               end;
        try (apply list_elem_of_singleton in Hin; congruence);
        try (now apply not_elem_of_nil in Hin).
    + intros (p' & [=] & _).
Qed.

Lemma failover_advice_exactly_witness :
  rec_failover ∈ get_storage_recommendations os_fallback_only_writable fresh_monitor.
Proof.
  apply (proj2 (failover_advice_exactly os_fallback_only_writable fresh_monitor
                  ltac:(vm_compute; discriminate))).
  eexists. split; [reflexivity|]. split; vm_compute; reflexivity.
Defined.

End DiagnosisFacts.

(** ** The deep health check and the monitoring loop of the health checker *)
Section SupervisionFacts.
Import StorageHealthChecker Supervision HealthFixtures.

Lemma perform_invalid cfg os probes db t :
  parse_kind t = None ->
  perform_comprehensive_health_check cfg os probes db t = (InvalidStorageType, db).
Proof. intros H. unfold perform_comprehensive_health_check. now rewrite H. Qed.

(** X10. The deep health check of the monitor hands the checker a path
    where it expects one of the names [primary] and [fallback]: unless a
    configured path is literally such a name, the call fails on the missing
    ['overall_status'] key of the checker's answer, for every argument, and
    runs no diagnostic and logs nothing. *)
Theorem deep_health_check_always_fails :
  forall cfg os probes db m storage_type,
    parse_kind (StorageMonitor.primary_path m) = None ->
    parse_kind (StorageMonitor.fallback_path m) = None ->
    perform_deep_health_check cfg os probes db m storage_type
    = (DeepFailed "'overall_status'", db, m).
Proof.
  intros cfg os probes db m storage_type Hp Hf.
  unfold perform_deep_health_check.
  destruct storage_type as [t|];
    [destruct (String.eqb t "primary"); [|destruct (String.eqb t "fallback")]|];
    cbn [deep_check_paths];
    rewrite ?(perform_invalid _ _ _ _ _ Hp), ?(perform_invalid _ _ _ _ _ Hf);
    reflexivity.
Qed.

Lemma deep_health_check_always_fails_witness :
  perform_deep_health_check default_config Fixtures.os_both_ok (fun _ => probe_all_fine)
    empty_db Fixtures.fresh_monitor None
  = (DeepFailed "'overall_status'", empty_db, Fixtures.fresh_monitor).
Proof.
  apply (deep_health_check_always_fails default_config Fixtures.os_both_ok
           (fun _ => probe_all_fine) empty_db Fixtures.fresh_monitor None);
    reflexivity.
Defined.

Lemma perform_report cfg os probes db k :
  exists r db1,
    perform_comprehensive_health_check cfg os probes db (kind_name k) = (Report r, db1) /\
    forall db', fst (perform_comprehensive_health_check cfg os probes db' (kind_name k))
                = Report r.
Proof.
  unfold perform_comprehensive_health_check. rewrite parse_kind_of_name.
  cbv zeta.
  repeat match goal with
         | |- context [if ?c then _ else _] => destruct c
         | |- context [match ?x with Returns _ => _ | Raises _ => _ end] => destruct x
         end;
    eexists _, _; (split; [reflexivity|intros db'; reflexivity]).
Qed.

Lemma primary_status_eq cfg os probes db r db1 :
  perform_comprehensive_health_check cfg os probes db "primary" = (Report r, db1) ->
  primary_status cfg (os, probes) = Some (overall_status r).
Proof.
  intros Hrun. unfold primary_status.
  destruct (perform_report cfg os probes db primary) as (r' & db' & Hr' & Hall).
  change (kind_name primary) with "primary" in *.
  rewrite Hrun in Hr'. injection Hr' as <- <-.
  cbn [fst snd]. now rewrite (Hall _).
Qed.

(** The counter of the primary endpoint and the monitor after one pass. *)
Lemma monitoring_pass_primary cfg os probes s :
  (primary_status cfg (os, probes) = Some error ->
   primary_failures (monitoring_pass cfg os probes s) = primary_failures s + 1 /\
   sup_monitor (monitoring_pass cfg os probes s) =
     if (3 <=? primary_failures s + 1) &&
        bool_decide (StorageMonitor.current_storage (sup_monitor s) = primary)
     then snd (StorageMonitor.auto_switch_storage os (sup_monitor s))
     else sup_monitor s) /\
  (primary_status cfg (os, probes) <> Some error ->
   primary_failures (monitoring_pass cfg os probes s) = 0 /\
   sup_monitor (monitoring_pass cfg os probes s) = sup_monitor s).
Proof.
  unfold monitoring_pass. cbn [fold_left].
  destruct (perform_report cfg os probes (sup_db s) primary) as (r & db1 & Hr & _).
  pose proof (primary_status_eq _ _ _ _ _ _ Hr) as Hst.
  set (s1 := monitoring_step cfg os probes s primary).
  destruct (perform_report cfg os probes (sup_db s1) fallback) as (r2 & db2 & Hr2 & _).
  assert (Hfb : primary_failures (monitoring_step cfg os probes s1 fallback)
                = primary_failures s1 /\
                sup_monitor (monitoring_step cfg os probes s1 fallback) = sup_monitor s1).
  { unfold monitoring_step. rewrite Hr2. cbn [consecutive_failures sup_monitor].
    unfold primary_failures. cbn [consecutive_failures].
    split; [|reflexivity].
    destruct (bool_decide (overall_status r2 = error)); now rewrite lookup_insert_ne. }
  destruct Hfb as [-> ->]. subst s1.
  unfold monitoring_step. rewrite Hr.
  unfold primary_failures. cbn [consecutive_failures sup_monitor kind_name].
  rewrite Hst. split.
  - intros [= Herr]. rewrite Herr. rewrite bool_decide_eq_true_2 by reflexivity.
    rewrite lookup_insert_eq. cbn [default]. split; [reflexivity|].
    now rewrite (bool_decide_eq_true_2 (primary = primary)) by reflexivity.
  - intros Hne. rewrite bool_decide_eq_false_2 by congruence.
    rewrite lookup_insert_eq. cbn [default]. split; [reflexivity|].
    now rewrite andb_false_r.
Qed.

(** X11. The monitoring loop counts consecutive failing passes: after a
    run of passes in each of which the health check of the primary endpoint
    reports [error], the counter of the primary endpoint has grown by the
    number of passes, and the monitor is left untouched as long as the
    counter stays below 3; a pass with any other status sets the counter
    back to 0 and leaves the monitor untouched. *)
Theorem consecutive_failures_counted :
  (forall cfg envs s,
     Forall (fun e => primary_status cfg e = Some error) envs ->
     primary_failures (run_passes cfg envs s)
       = primary_failures s + Z.of_nat (length envs) /\
     (primary_failures s + Z.of_nat (length envs) < 3 ->
      sup_monitor (run_passes cfg envs s) = sup_monitor s)) /\
  (forall cfg os probes s,
     primary_status cfg (os, probes) <> Some error ->
     primary_failures (monitoring_pass cfg os probes s) = 0 /\
     sup_monitor (monitoring_pass cfg os probes s) = sup_monitor s).
Proof.
  split.
  - intros cfg envs. induction envs as [|[os probes] envs IH]; intros s Hall.
    + cbn. split; [lia|reflexivity].
    + apply Forall_cons in Hall as [Herr Hall].
      destruct (proj1 (monitoring_pass_primary cfg os probes s) Herr) as [Hc Hm].
      unfold run_passes. cbn [fold_left fst snd length].
      fold (run_passes cfg envs (monitoring_pass cfg os probes s)).
      destruct (IH (monitoring_pass cfg os probes s) Hall) as [IHc IHm].
      rewrite IHc, Hc. split; [lia|].
      intros Hlt. rewrite IHm by lia. rewrite Hm.
      destruct (3 <=? primary_failures s + 1) eqn:Hge; [|reflexivity].
      apply Z.leb_le in Hge. lia.
  - intros cfg os probes s. apply monitoring_pass_primary.
Qed.

Lemma consecutive_failures_counted_witness :
  primary_failures (run_passes default_config [pass_primary_gone; pass_primary_gone]
                      fresh_supervisor) = 2 /\
  sup_monitor (run_passes default_config [pass_primary_gone; pass_primary_gone]
                 fresh_supervisor) = sup_monitor fresh_supervisor.
Proof.
  destruct (proj1 consecutive_failures_counted default_config
              [pass_primary_gone; pass_primary_gone] fresh_supervisor) as [Hc Hm].
  - repeat constructor.
  - split; [exact Hc|]. apply Hm. reflexivity.
Defined.

Example third_failing_pass_switches :
  StorageMonitor.current_storage
    (sup_monitor (run_passes default_config
                    [pass_primary_gone; pass_primary_gone; pass_primary_gone]
                    fresh_supervisor)) = fallback.
Proof. vm_compute. reflexivity. Qed.

End SupervisionFacts.

(** ** Health checker: what a run records *)
Section HealthRunFacts.
Import StorageHealthChecker HealthFixtures.

(** X12. A failing availability check ends the run at once: the report
    holds that single check and a single critical alert, its status is
    [error], it carries no recommendation, and nothing is written to the
    tables of the checker - the failure is not persisted. *)
Theorem availability_failure_short_circuits :
  forall cfg os probes db k r db',
    passed (_check_storage_availability os (probes (path_of_kind cfg k))
              (path_of_kind cfg k)) = false ->
    perform_comprehensive_health_check cfg os probes db (kind_name k) = (Report r, db') ->
    db' = db /\ overall_status r = error /\
    map fst (checks r) = ["availability"] /\
    map (fun a => (alert_type a, alert_severity a)) (alerts r)
      = [("availability", sev_critical)] /\
    recommendations r = [].
Proof.
  intros cfg os probes db k r db' Hav.
  unfold perform_comprehensive_health_check. rewrite parse_kind_of_name.
  fold (path_of_kind cfg k). cbv zeta. rewrite Hav. cbn [negb].
  intros [= <- <-]. repeat split.
Qed.

Lemma availability_failure_short_circuits_witness :
  snd (perform_comprehensive_health_check default_config Fixtures.os_primary_gone
         (fun _ => probe_all_fine) empty_db "primary") = empty_db /\
  status_of (fst (perform_comprehensive_health_check default_config Fixtures.os_primary_gone
                    (fun _ => probe_all_fine) empty_db "primary")) = Some error.
Proof.
  destruct (perform_comprehensive_health_check default_config Fixtures.os_primary_gone
              (fun _ => probe_all_fine) empty_db "primary") as [o db'] eqn:Hrun.
  assert (Ho : exists r, o = Report r).
  { vm_compute in Hrun. injection Hrun as <- _. eexists. reflexivity. }
  destruct Ho as [r ->].
  destruct (availability_failure_short_circuits default_config Fixtures.os_primary_gone
              (fun _ => probe_all_fine) empty_db primary r db' eq_refl Hrun)
    as (Hdb & Hst & _).
  split; [exact Hdb|]. cbn. now rewrite Hst.
Defined.

Lemma inserts_accepted_iff {A} os table (rows : list A) :
  inserts_accepted os table rows = true <-> rows = [] \/ accepts os table = true.
Proof.
  unfold inserts_accepted, accepts. destruct rows as [|x rows]; [split; auto|].
  destruct (os_sqlite_write os table); split; auto; intros [H|H]; congruence.
Qed.

(** The transaction of [_log_health_check_results] goes through when each
    table it has rows for accepts the write, and leaves the tables as they
    were otherwise. *)
Lemma log_health_check_results_accepted os db t r :
  checks r = [] \/ accepts os "storage_health_checks" = true ->
  alerts r = [] \/ accepts os "storage_alerts" = true ->
  _log_health_check_results os db t r =
    {| storage_health_checks := storage_health_checks db ++
         map (fun p : string * check_result =>
                {| hcr_storage_type := t;
                   hcr_check_type := fst p;
                   hcr_status := if passed (snd p) then "passed" else "failed";
                   hcr_response_time_ms := response_time_ms (snd p);
                   hcr_error_message := check_error (snd p) |}) (checks r);
       storage_alerts := storage_alerts db ++
         map (fun a => {| ar_storage_type := t; ar_alert := a;
                          ar_resolved := false |}) (alerts r) |}.
Proof.
  intros Hc Ha. unfold _log_health_check_results.
  apply inserts_accepted_iff in Hc, Ha. now rewrite Hc, Ha.
Qed.

Lemma log_health_check_results_refused os db t r :
  (checks r <> [] /\ accepts os "storage_health_checks" = false) \/
  (alerts r <> [] /\ accepts os "storage_alerts" = false) ->
  _log_health_check_results os db t r = db.
Proof.
  intros H. unfold _log_health_check_results.
  destruct (inserts_accepted os "storage_health_checks" (checks r)) eqn:Hc;
    [|reflexivity].
  destruct (inserts_accepted os "storage_alerts" (alerts r)) eqn:Ha; [|reflexivity].
  apply inserts_accepted_iff in Hc, Ha.
  destruct H as [[Hne Hr]|[Hne Hr]]; [destruct Hc|destruct Ha]; congruence.
Qed.

(** A run whose availability check passes: its report, and the call of
    [_log_health_check_results] that ends it when no key lookup failed. *)
Lemma completed_run cfg os probes db k r db' :
  passed (_check_storage_availability os (probes (path_of_kind cfg k))
            (path_of_kind cfg k)) = true ->
  perform_comprehensive_health_check cfg os probes db (kind_name k) = (Report r, db') ->
  (hr_error r = None ->
   db' = _log_health_check_results os db (kind_name k) r /\
   map fst (checks r) = check_names /\
   map alert_type (alerts r)
     = failing_alert_types
         (passed (_check_io_performance (probes (path_of_kind cfg k))))
         (passed (_check_space_utilization cfg os (probes (path_of_kind cfg k))
                    (path_of_kind cfg k)))
         (passed (_check_file_system_integrity (probes (path_of_kind cfg k))))
         (passed (_check_music_files_accessibility (probes (path_of_kind cfg k))))) /\
  (hr_error r <> None -> db' = db /\ overall_status r = error).
Proof.
  intros Hav.
  unfold perform_comprehensive_health_check. rewrite parse_kind_of_name.
  fold (path_of_kind cfg k). cbv zeta. rewrite Hav. cbn [negb].
  unfold space_step, music_step.
  set (p := path_of_kind cfg k).
  destruct (passed (_check_io_performance (probes p))),
           (passed (_check_space_utilization cfg os (probes p) p)),
           (usage_percent (_check_space_utilization cfg os (probes p) p)) as [pct|],
           (passed (_check_file_system_integrity (probes p))),
           (passed (_check_music_files_accessibility (probes p))),
           (inaccessible_count (_check_music_files_accessibility (probes p)));
    cbn [negb]; intros [= <- <-];
    (split; [intros Herr; try discriminate Herr|intros Herr; try (now contradiction Herr)]);
    cbn [checks alerts hr_error overall_status add_check add_alert set_status
         set_recommendations on_exception];
    repeat split.
Qed.

(** The report of a run depends on the machine through the file system
    only: neither the rows already in the tables nor what sqlite answers
    to the writes changes it. *)
Lemma report_ignores_database cfg os1 os2 probes db1 db2 k :
  os_exists os1 = os_exists os2 -> os_readable os1 = os_readable os2 ->
  os_writable os1 = os_writable os2 -> os_disk_usage os1 = os_disk_usage os2 ->
  fst (perform_comprehensive_health_check cfg os1 probes db1 (kind_name k))
  = fst (perform_comprehensive_health_check cfg os2 probes db2 (kind_name k)).
Proof.
  intros He Hr Hw Hd.
  assert (HA : forall pr p, _check_storage_availability os1 pr p
                            = _check_storage_availability os2 pr p).
  { intros pr p. unfold _check_storage_availability. now rewrite He, Hr, Hw. }
  assert (HS : forall pr p, _check_space_utilization cfg os1 pr p
                            = _check_space_utilization cfg os2 pr p).
  { intros pr p. unfold _check_space_utilization. now rewrite Hd. }
  unfold perform_comprehensive_health_check. rewrite parse_kind_of_name.
  cbv zeta. rewrite !HA, !HS.
  destruct (negb (passed (_check_storage_availability os2 _ _))); [reflexivity|].
  destruct (space_step _ _); [|reflexivity].
  destruct (music_step _ _); reflexivity.
Qed.

(** X13. A run in which the availability check passes and no key lookup
    fails holds the five checks in the order they ran and one alert per
    failing check among the four later checks.  It records itself when
    sqlite accepts the writes: one row per check is appended to
    [storage_health_checks] and one unresolved row per alert to
    [storage_alerts].  When sqlite refuses the write on
    [storage_health_checks], or on [storage_alerts] while there is an
    alert, nothing is written - and the caller receives the same report.
    A run interrupted by a failed key lookup (its report carries an error
    text) writes nothing. *)
Theorem completed_run_is_recorded :
  forall cfg os probes db k r db',
    passed (_check_storage_availability os (probes (path_of_kind cfg k))
              (path_of_kind cfg k)) = true ->
    perform_comprehensive_health_check cfg os probes db (kind_name k) = (Report r, db') ->
    (hr_error r = None ->
     map fst (checks r) = check_names /\
     map alert_type (alerts r)
       = failing_alert_types
           (passed (_check_io_performance (probes (path_of_kind cfg k))))
           (passed (_check_space_utilization cfg os (probes (path_of_kind cfg k))
                      (path_of_kind cfg k)))
           (passed (_check_file_system_integrity (probes (path_of_kind cfg k))))
           (passed (_check_music_files_accessibility (probes (path_of_kind cfg k)))) /\
     (accepts os "storage_health_checks" = true ->
      alerts r = [] \/ accepts os "storage_alerts" = true ->
      map hcr_check_type (storage_health_checks db')
        = map hcr_check_type (storage_health_checks db) ++ check_names /\
      storage_alerts db'
        = storage_alerts db ++
          map (fun a => {| ar_storage_type := kind_name k; ar_alert := a;
                           ar_resolved := false |}) (alerts r)) /\
     (accepts os "storage_health_checks" = false \/
      (alerts r <> [] /\ accepts os "storage_alerts" = false) ->
      db' = db)) /\
    (hr_error r <> None -> db' = db /\ overall_status r = error) /\
    (forall os' db0,
       os_exists os' = os_exists os -> os_readable os' = os_readable os ->
       os_writable os' = os_writable os -> os_disk_usage os' = os_disk_usage os ->
       fst (perform_comprehensive_health_check cfg os' probes db0 (kind_name k)) = Report r).
Proof.
  intros cfg os probes db k r db' Hav Hrun.
  destruct (completed_run cfg os probes db k r db' Hav Hrun) as [Hok Hbad].
  split; [|split; [exact Hbad|]].
  - intros Herr. destruct (Hok Herr) as (Hdb & Hc & Ha).
    assert (Hne : checks r <> []) by (intros Hnil; now rewrite Hnil in Hc).
    split; [exact Hc|]. split; [exact Ha|]. split.
    + intros Hacc1 Hacc2. rewrite Hdb.
      rewrite (log_health_check_results_accepted os db (kind_name k) r (or_intror Hacc1) Hacc2).
      cbn [storage_health_checks storage_alerts]. split; [|reflexivity].
      rewrite map_app, map_map. f_equal. rewrite <- Hc. now apply map_ext.
    + intros Href. rewrite Hdb. apply log_health_check_results_refused.
      destruct Href as [Href|Href]; [left; now split|right; exact Href].
  - intros os' db0 He Hr Hw Hd.
    rewrite (report_ignores_database cfg os' os probes db0 db k He Hr Hw Hd).
    now rewrite Hrun.
Qed.

Lemma completed_run_is_recorded_witness :
  exists r db',
    perform_comprehensive_health_check default_config Fixtures.os_both_ok
      (fun _ => probe_integrity_and_music_fail) empty_db "primary" = (Report r, db') /\
    map fst (checks r) = check_names /\
    map alert_type (alerts r) = ["integrity"; "music_files"] /\
    map hcr_check_type (storage_health_checks db') = check_names /\
    length (storage_alerts db') = 2%nat.
Proof.
  eexists _, _. split; [vm_compute; reflexivity|].
  destruct (proj1 (completed_run_is_recorded default_config Fixtures.os_both_ok
                     (fun _ => probe_integrity_and_music_fail) empty_db primary _ _
                     ltac:(reflexivity) ltac:(vm_compute; reflexivity))
              ltac:(reflexivity)) as (Hc & Ha & Hacc & _).
  destruct (Hacc ltac:(reflexivity) ltac:(right; reflexivity)) as (Hrows & Hal).
  split; [exact Hc|]. split; [exact Ha|]. split; [exact Hrows|].
  rewrite Hal. reflexivity.
Defined.

(** With the database locked the same run hands back the same report, two
    alerts included, and leaves both tables empty. *)
Example run_with_database_locked :
  let locked := perform_comprehensive_health_check default_config
                  Fixtures.os_database_locked (fun _ => probe_integrity_and_music_fail)
                  empty_db "primary" in
  let accepted := perform_comprehensive_health_check default_config
                    Fixtures.os_both_ok (fun _ => probe_integrity_and_music_fail)
                    empty_db "primary" in
  fst locked = fst accepted /\ snd locked = empty_db /\
  length (storage_health_checks (snd accepted)) = 5%nat /\
  length (storage_alerts (snd accepted)) = 2%nat.
Proof. vm_compute. repeat split. Qed.

Lemma Qltb_inject_Z_5000 t : Qltb (inject_Z t) (max_io_time * 1000) = true <-> t < 5000.
Proof.
  unfold Qltb. rewrite negb_true_iff, <- not_true_iff_false, Qle_bool_iff.
  unfold Qle, max_io_time. simpl. lia.
Qed.

(** X14. The I/O check passes exactly when the write/read test raises
    nothing and its measured round trip is below 5000 ms and not 0 ms: a
    test that completes within the same millisecond is reported as failed,
    because the throughput figure divides by the elapsed time. *)
Theorem io_check_passes_exactly :
  forall pr,
    passed (_check_io_performance pr) = true <->
    (exists u, io_test pr = Returns u) /\ io_ms pr <> 0 /\ io_ms pr < 5000.
Proof.
  intros pr. unfold _check_io_performance.
  destruct (io_test pr) as [u|e].
  - destruct (io_ms pr =? 0) eqn:Hz.
    + apply Z.eqb_eq in Hz. cbn [passed check_failed]. split; [discriminate|].
      intros (_ & Hne & _). contradiction.
    + apply Z.eqb_neq in Hz. cbn [passed check_plain].
      rewrite Qltb_inject_Z_5000. split; [eauto|]. tauto.
  - cbn [passed check_failed]. split; [discriminate|].
    intros ((u & Hu) & _). discriminate.
Qed.

Lemma Qltb_five_percent i t :
  Qltb (inject_Z i / inject_Z (Z.max t 1)) (5 # 100) = true <-> 20 * i < Z.max t 1.
Proof.
  unfold Qltb. rewrite negb_true_iff, <- not_true_iff_false, Qle_bool_iff.
  assert (Hpos : 0 < Z.max t 1) by lia.
  destruct (Z.max t 1) as [|M|M]; try lia.
  unfold Qle, Qdiv, Qmult, Qinv, inject_Z. simpl. lia.
Qed.

(** X15. The media check passes exactly when the walk raises nothing and
    fewer than 5% of the audio files found are unreadable, i.e. when
    [20 * unreadable < max (found, 1)]: an empty tree passes, and a tree in
    which exactly one file in twenty is unreadable fails. *)
Theorem music_check_passes_exactly :
  forall pr,
    passed (_check_music_files_accessibility pr) = true <->
    exists total_files inaccessible,
      music_walk pr = Returns (total_files, inaccessible) /\
      20 * inaccessible < Z.max total_files 1.
Proof.
  intros pr. unfold _check_music_files_accessibility.
  destruct (music_walk pr) as [[t i]|e].
  - cbn [passed]. rewrite Qltb_five_percent. split.
    + intros H. exists t, i. auto.
    + intros (t' & i' & [= <- <-] & H). exact H.
  - cbn [passed check_failed]. split; [discriminate|].
    intros (t & i & Hw & _). discriminate.
Qed.

End HealthRunFacts.

(** ** Backup manager: candidates, eviction and the accounting of a run *)
Section BackupRunFacts.
Import BackupManager BackupFixtures SyncFixtures.

Global Instance least_played_first_transitive : Transitive least_played_first.
Proof.
  intros a b c. unfold least_played_first, null_first_le.
  destruct (last_played a), (last_played b), (last_played c); intros; lia.
Qed.

Global Instance least_played_first_total : Total least_played_first.
Proof.
  intros a b. unfold least_played_first, null_first_le.
  destruct (last_played a), (last_played b); lia.
Qed.

Global Instance most_played_first_transitive : Transitive most_played_first.
Proof. intros a b c Hab Hbc. unfold most_played_first in *. now transitivity b. Qed.

Global Instance most_played_first_total : Total most_played_first.
Proof. intros a b. unfold most_played_first. apply least_played_first_total. Qed.

Lemma sql_limit_subseteq {A} n (l : list A) : sql_limit n l ⊆ l.
Proof. unfold sql_limit. destruct (n <? 0); [reflexivity|apply subseteq_take]. Qed.

Lemma sql_limit_split {A} n (l : list A) :
  exists rest, l = sql_limit n l ++ rest /\ (n < 0 -> rest = []).
Proof.
  unfold sql_limit. destruct (n <? 0) eqn:Hn.
  - exists []. split; [now rewrite app_nil_r|reflexivity].
  - apply Z.ltb_ge in Hn. exists (drop (Z.to_nat n) l).
    split; [now rewrite take_drop|lia].
Qed.

Lemma sql_limit_length {A} n (l : list A) :
  0 <= n -> Z.of_nat (length (sql_limit n l)) <= n.
Proof.
  intros Hn. unfold sql_limit. rewrite (proj2 (Z.ltb_ge n 0)) by lia.
  rewrite length_take. lia.
Qed.

Lemma candidates_are_the_most_played_aux mgr st :
  (forall s, s ∈ get_backup_candidates mgr st ->
     s ∈ songs st /\ storage_location s = loc_primary /\ is_available s = true) /\
  StronglySorted most_played_first (get_backup_candidates mgr st).
Proof.
  unfold get_backup_candidates.
  set (eligible := filter _ (songs st)).
  set (sorted := merge_sort most_played_first eligible).
  assert (Hsorted : StronglySorted most_played_first sorted).
  { apply StronglySorted_merge_sort; apply _. }
  destruct (sql_limit_split (max_backup_songs mgr) sorted) as (rest & Hsplit & _).
  split.
  - intros s Hs. apply sql_limit_subseteq in Hs.
    unfold sorted in Hs. rewrite merge_sort_Permutation in Hs.
    apply list_elem_of_filter in Hs. tauto.
  - rewrite Hsplit in Hsorted. now apply StronglySorted_app_1_l in Hsorted.
Qed.

(** X16. The candidates of a run are songs of the catalog that are at
    [primary] and available, listed by play count descending, then last
    played descending; with a non-negative bound there are at most
    [max_backup_songs] of them, and every eligible song that is left out
    comes after every candidate in that order. *)
Theorem candidates_are_the_most_played :
  forall mgr st,
    let candidates := get_backup_candidates mgr st in
    (forall s, s ∈ candidates ->
       s ∈ songs st /\ storage_location s = loc_primary /\ is_available s = true) /\
    StronglySorted most_played_first candidates /\
    (0 <= max_backup_songs mgr ->
     Z.of_nat (length candidates) <= max_backup_songs mgr) /\
    (forall c s,
       c ∈ candidates -> s ∈ songs st ->
       storage_location s = loc_primary -> is_available s = true ->
       s ∉ candidates -> most_played_first c s).
Proof.
  intros mgr st. cbv zeta. unfold get_backup_candidates.
  set (eligible := filter _ (songs st)).
  set (sorted := merge_sort most_played_first eligible).
  assert (Hsorted : StronglySorted most_played_first sorted).
  { apply StronglySorted_merge_sort; apply _. }
  destruct (sql_limit_split (max_backup_songs mgr) sorted) as (rest & Hsplit & _).
  split; [|split; [|split]].
  - intros s Hs. apply sql_limit_subseteq in Hs.
    unfold sorted in Hs. rewrite merge_sort_Permutation in Hs.
    apply list_elem_of_filter in Hs. tauto.
  - rewrite Hsplit in Hsorted. now apply StronglySorted_app_1_l in Hsorted.
  - apply sql_limit_length.
  - intros c s Hc Hs Hloc Hav Hout.
    assert (Hin : s ∈ sorted).
    { unfold sorted. rewrite merge_sort_Permutation. apply list_elem_of_filter. auto. }
    rewrite Hsplit in Hin, Hsorted.
    apply elem_of_app in Hin as [Hin|Hin]; [contradiction|].
    eapply StronglySorted_app_1_elem_of; eauto.
Qed.

(** X17. [_cleanup_old_backups] evicts nothing: the rows it fetches are
    plain tuples (its connection sets no row factory), the first read of a
    column by name raises, and the handler only logs.  The store is left as
    it was - catalog, files and audit log - whatever rows were selected. *)
Theorem cleanup_evicts_nothing :
  forall st,
    _cleanup_old_backups st = st /\
    (forall rows, rows <> [] ->
       cleanup_rows (tuple_row <$> rows) st
       = (st, Some "tuple indices must be integers or slices, not str")) /\
    (forall rows, exists st',
       cleanup_rows (named_row <$> rows) st = (st', None) /\
       forall s, s ∈ songs st' -> id s ∈ map id rows -> storage_location s = loc_primary).
Proof.
  intros st. split; [apply cleanup_is_noop|]. split.
  - intros [|r rows] Hne; [contradiction|reflexivity].
  - intros rows. revert st. induction rows as [|r rows IH]; intros st.
    + exists st. split; [reflexivity|]. intros s _ Hin. now apply not_elem_of_nil in Hin.
    + cbn [fmap list_fmap cleanup_rows column].
      destruct (IH (remove_backup st (id r) (fallback_path r))) as (st' & Hrun & Hall).
      exists st'. split; [exact Hrun|].
      intros s Hs Hin. cbn [map] in Hin. apply elem_of_cons in Hin as [Heq|Hin].
      * clear Hall. revert Hs. revert Hrun.
        assert (Hfix : forall rs st0 st1,
                  cleanup_rows (named_row <$> rs) st0 = (st1, None) ->
                  (forall x, x ∈ songs st0 -> id x = id r -> storage_location x = loc_primary) ->
                  forall x, x ∈ songs st1 -> id x = id r -> storage_location x = loc_primary).
        { clear. induction rs as [|r' rs IHrs]; intros st0 st1 Hrun Hpre x Hx Hid.
          - injection Hrun as <-. now apply Hpre.
          - cbn [fmap list_fmap cleanup_rows column] in Hrun.
            eapply (IHrs _ _ Hrun); [|exact Hx|exact Hid].
            intros y Hy Hyid. cbn [remove_backup songs] in Hy.
            apply list_elem_of_fmap in Hy as (z & -> & Hz).
            case_bool_decide; [reflexivity|]. apply Hpre; [exact Hz|exact Hyid]. }
        intros Hrun Hs. eapply (Hfix _ _ _ Hrun); [|exact Hs|exact Heq].
        intros y Hy Hyid. cbn [remove_backup songs] in Hy.
        apply list_elem_of_fmap in Hy as (z & -> & Hz).
        case_bool_decide as Hz'; [reflexivity|]. simpl in Hyid. contradiction.
      * now apply Hall.
Qed.

Lemma sync_step_accounting mgr w res st sg :
  storage_location sg = loc_primary ->
  let out := sync_step mgr w (res, st) sg in
  handled (fst out) = handled res + 1 /\
  total_backup_songs (fst out) - backed_up (fst out)
    = total_backup_songs res - backed_up res /\
  backed_up res <= backed_up (fst out) /\ failed res <= failed (fst out) /\
  skipped res <= skipped (fst out) /\
  (total_backup_songs res <= max_backup_songs mgr ->
   total_backup_songs (fst out) <= max_backup_songs mgr).
Proof.
  intros Hloc. cbv zeta. unfold sync_step, handled.
  destruct (max_backup_songs mgr <=? total_backup_songs res) eqn:Hfull.
  - cbn. lia.
  - apply Z.leb_gt in Hfull.
    rewrite bool_decide_eq_false_2 by (rewrite Hloc; discriminate).
    destruct (backup_song mgr w st sg) as [[] st']; cbn; lia.
Qed.

Lemma sync_loop_accounting mgr w l : forall res st,
  Forall (fun sg => storage_location sg = loc_primary) l ->
  let out := fold_left (sync_step mgr w) l (res, st) in
  handled (fst out) = handled res + Z.of_nat (length l) /\
  total_backup_songs (fst out) - backed_up (fst out)
    = total_backup_songs res - backed_up res /\
  backed_up res <= backed_up (fst out) /\ failed res <= failed (fst out) /\
  skipped res <= skipped (fst out) /\
  (total_backup_songs res <= max_backup_songs mgr ->
   total_backup_songs (fst out) <= max_backup_songs mgr).
Proof.
  induction l as [|sg l IH]; intros res st Hall; cbv zeta.
  - cbn. repeat split; lia.
  - apply Forall_cons in Hall as [Hsg Hall]. cbn [fold_left length].
    pose proof (sync_step_accounting mgr w res st sg Hsg) as Hstep. cbv zeta in Hstep.
    destruct (sync_step mgr w (res, st) sg) as [res1 st1]. cbn [fst] in Hstep.
    specialize (IH res1 st1 Hall). cbv zeta in IH.
    destruct Hstep as (H1 & H2 & H3 & H4 & H5 & H6).
    destruct IH as (I1 & I2 & I3 & I4 & I5 & I6).
    repeat split; lia.
Qed.

(** X18. The counters of a run add up.  A run that gets past the free-space
    test puts every candidate in exactly one of [backed_up], [failed] and
    [skipped], and reports as [total_backup_songs] the number of backed-up
    songs found on entry plus [backed_up]; when that number was at most the
    bound on entry the reported total does not pass the bound.  A run
    stopped by the free-space test, or by a failure of the space query,
    reports four zeros, also for [total_backup_songs], and changes
    nothing. *)
Theorem sync_counters_add_up :
  forall mgr w st,
    let out := sync_backup_storage mgr w st in
    ((exists stat, fallback_usage w = Returns stat /\ Qltb (gib (du_free stat)) 1 = false) ->
     handled (fst out) = Z.of_nat (length (get_backup_candidates mgr st)) /\
     total_backup_songs (fst out) = backup_count (songs st) + backed_up (fst out) /\
     0 <= backed_up (fst out) /\ 0 <= failed (fst out) /\ 0 <= skipped (fst out) /\
     (backup_count (songs st) <= max_backup_songs mgr ->
      total_backup_songs (fst out) <= max_backup_songs mgr)) /\
    (~ (exists stat, fallback_usage w = Returns stat /\ Qltb (gib (du_free stat)) 1 = false) ->
     out = ({| backed_up := 0; failed := 0; skipped := 0; total_backup_songs := 0 |}, st)).
Proof.
  intros mgr w st. cbv zeta. unfold sync_backup_storage. split.
  - intros (stat & -> & ->). cbv zeta. cbn [total_backup_songs].
    rewrite cleanup_is_noop. rewrite Tauto.if_same.
    assert (Hall : Forall (fun sg => storage_location sg = loc_primary)
                     (get_backup_candidates mgr st)).
    { apply Forall_forall. intros s Hs.
      apply (proj1 (candidates_are_the_most_played_aux mgr st)) in Hs. tauto. }
    pose proof (sync_loop_accounting mgr w _
                  {| backed_up := 0; failed := 0; skipped := 0;
                     total_backup_songs := backup_count (songs st) |} st Hall) as H.
    cbv zeta in H. unfold handled in *. cbn [backed_up failed skipped total_backup_songs] in H.
    destruct H as (H1 & H2 & H3 & H4 & H5 & H6).
    repeat split; lia.
  - intros Hno. destruct (fallback_usage w) as [stat|e]; [|reflexivity].
    destruct (Qltb (gib (du_free stat)) 1) eqn:Hfree; [reflexivity|].
    exfalso. apply Hno. eauto.
Qed.

Example sync_of_one_song :
  fst (sync_backup_storage default_manager faithful_world one_song_store)
  = {| backed_up := 1; failed := 0; skipped := 0; total_backup_songs := 1 |}.
Proof. vm_compute. reflexivity. Qed.

Lemma at_most_marked_refl l : Forall2 at_most_marked l l.
Proof. apply Forall_Forall2_diag, Forall_forall. intros s _. repeat split. now left. Qed.

Lemma at_most_marked_trans l1 l2 l3 :
  Forall2 at_most_marked l1 l2 -> Forall2 at_most_marked l2 l3 ->
  Forall2 at_most_marked l1 l3.
Proof.
  intros H12. revert l3. induction H12 as [|a b l1 l2 Hab _ IH]; intros l3 H23.
  - inversion H23. constructor.
  - inversion H23 as [|b' c l2' l3' Hbc Hrest]; subst. constructor; [|now apply IH].
    destruct Hab as (Ha1 & Ha2 & Ha3 & Ha4 & Ha5), Hbc as (Hb1 & Hb2 & Hb3 & Hb4 & Hb5).
    repeat split; try congruence.
    destruct Hb5 as [->|Hb5]; [exact Ha5|now right].
Qed.

Lemma at_most_marked_update p c t i l :
  Forall2 at_most_marked l (update_where_id (mark_backed_up p c t) i l).
Proof.
  induction l as [|s l IH]; [constructor|].
  cbn. constructor; [|exact IH].
  case_bool_decide; repeat split; auto.
Qed.

Lemma sync_loop_marks mgr w l : forall res st,
  Forall2 at_most_marked (songs st)
    (songs (snd (fold_left (sync_step mgr w) l (res, st)))).
Proof.
  induction l as [|sg l IH]; intros res st; [apply at_most_marked_refl|].
  cbn [fold_left].
  destruct (sync_step mgr w (res, st) sg) as [res1 st1] eqn:Hstep.
  eapply at_most_marked_trans; [|apply IH].
  unfold sync_step in Hstep.
  destruct (max_backup_songs mgr <=? total_backup_songs res);
    [injection Hstep as <- <-; apply at_most_marked_refl|].
  destruct (bool_decide (storage_location sg = loc_both));
    [injection Hstep as <- <-; apply at_most_marked_refl|].
  destruct (backup_song mgr w st sg) as [ok st'] eqn:Hrun.
  assert (Hsongs : Forall2 at_most_marked (songs st) (songs st')).
  { apply backup_song_songs in Hrun as [-> | (p & c & ->)];
      [apply at_most_marked_refl|apply at_most_marked_update]. }
  destruct ok; injection Hstep as <- <-; exact Hsongs.
Qed.

(** X19. A run of [sync_backup_storage] never demotes or removes a catalog
    row: the catalog after the run has the same rows in the same order,
    each either unchanged or marked [both]; so the number of backed-up
    songs never decreases. *)
Theorem sync_only_marks_rows :
  forall mgr w st,
    Forall2 at_most_marked (songs st) (songs (snd (sync_backup_storage mgr w st))) /\
    backup_count (songs st) <= backup_count (songs (snd (sync_backup_storage mgr w st))).
Proof.
  intros mgr w st.
  assert (H : Forall2 at_most_marked (songs st)
                (songs (snd (sync_backup_storage mgr w st)))).
  { unfold sync_backup_storage.
    destruct (fallback_usage w) as [stat|e]; [|apply at_most_marked_refl].
    destruct (Qltb _ 1); [apply at_most_marked_refl|].
    cbv zeta. rewrite cleanup_is_noop, Tauto.if_same. apply sync_loop_marks. }
  split; [exact H|].
  induction H as [|a b l l' Hab _ IH]; [reflexivity|].
  rewrite !backup_count_cons.
  destruct Hab as (_ & _ & _ & _ & [-> | Hb]); [lia|].
  assert (Hbb : is_backed_up b = true) by (unfold is_backed_up; now rewrite Hb).
  rewrite Hbb. destruct (is_backed_up a); lia.
Qed.

(** A copy that raises: the catalog is untouched, the destination holds
    what the copy left there, and the handler appends the failure row. *)
Lemma backup_song_copy_raises mgr w st sg content e :
  files st !! filepath sg = Some content ->
  filepath sg <> fallback_file mgr sg ->
  copy_stored w (fallback_file mgr sg) content = Raises e ->
  backup_song mgr w st sg =
    (false,
     {| songs := songs st;
        files := match copy_residue w (fallback_file mgr sg) content with
                 | Some partial => <[fallback_file mgr sg := partial]> (files st)
                 | None => files st
                 end;
        backup_sync_log := backup_sync_log st ++
          [{| song_id := id sg; action := "backup_failed";
              source_path := Some (filepath sg); destination_path := None;
              file_size := None; log_checksum := None;
              error_message := Some e |}] |}).
Proof.
  intros Hsrc Hne Hcopy. unfold backup_song. fold (fallback_file mgr sg).
  rewrite Hsrc. rewrite !bool_decide_eq_false_2 by assumption. now rewrite Hcopy.
Qed.

Lemma backup_song_same_file mgr w st sg content :
  files st !! filepath sg = Some content ->
  filepath sg = fallback_file mgr sg ->
  backup_song mgr w st sg =
    (false,
     {| songs := songs st; files := files st;
        backup_sync_log := backup_sync_log st ++
          [{| song_id := id sg; action := "backup_failed";
              source_path := Some (filepath sg); destination_path := None;
              file_size := None; log_checksum := None;
              error_message := Some "source and destination are the same file" |}] |}).
Proof.
  intros Hsrc Hsame. unfold backup_song. fold (fallback_file mgr sg).
  rewrite Hsrc. now rewrite !bool_decide_eq_true_2 by assumption.
Qed.

(** X20. The audit log of [backup_song], branch by branch, the catalog
    database accepting its statements.  A successful
    backup appends one [backup_created] row naming the song and the
    fallback file.  A missing source file changes nothing at all.  A copy
    that raises always appends one [backup_failed] row with the song, the
    source path and the error text, and leaves the catalog untouched; the
    destination is left as the failed copy left it - a partial file stays,
    the handler removes nothing.  A source that is its own destination is
    such a failure with no file touched.  A digest mismatch appends
    nothing, leaves the catalog untouched and removes the copy. *)
Theorem backup_song_audit_log :
  forall mgr w st sg,
    let out := backup_song mgr w st sg in
    let dst := fallback_file mgr sg in
    (fst out = true ->
     exists row,
       backup_sync_log (snd out) = backup_sync_log st ++ [row] /\
       action row = "backup_created" /\ song_id row = id sg /\
       destination_path row = Some dst) /\
    (files st !! filepath sg = None -> out = (false, st)) /\
    (forall content e,
       files st !! filepath sg = Some content ->
       filepath sg <> dst ->
       copy_stored w dst content = Raises e ->
       fst out = false /\ songs (snd out) = songs st /\
       (exists row,
          backup_sync_log (snd out) = backup_sync_log st ++ [row] /\
          action row = "backup_failed" /\ song_id row = id sg /\
          source_path row = Some (filepath sg) /\ error_message row = Some e) /\
       files (snd out) = match copy_residue w dst content with
                         | Some partial => <[dst := partial]> (files st)
                         | None => files st
                         end) /\
    (forall content,
       files st !! filepath sg = Some content ->
       filepath sg = dst ->
       fst out = false /\ songs (snd out) = songs st /\ files (snd out) = files st /\
       exists row,
         backup_sync_log (snd out) = backup_sync_log st ++ [row] /\
         action row = "backup_failed" /\ song_id row = id sg) /\
    (forall content stored,
       files st !! filepath sg = Some content ->
       filepath sg <> dst ->
       copy_stored w dst content = Returns stored ->
       md5_hexdigest w stored <> md5_hexdigest w content ->
       fst out = false /\ songs (snd out) = songs st /\
       backup_sync_log (snd out) = backup_sync_log st /\
       files (snd out) !! dst = None).
Proof.
  intros mgr w st sg. cbv zeta. split; [|split; [|split; [|split]]].
  - unfold backup_song. fold (fallback_file mgr sg).
    destruct (files st !! filepath sg); [|discriminate].
    destruct (if bool_decide _ then Raises _ else _); [|discriminate].
    destruct (negb _); [discriminate|]. intros _. cbn. eexists. repeat split.
  - intros Hsrc. unfold backup_song. now rewrite Hsrc.
  - intros content e Hsrc Hne Hcopy.
    rewrite (backup_song_copy_raises _ _ _ _ _ _ Hsrc Hne Hcopy). cbn [fst snd songs files
      backup_sync_log].
    split; [reflexivity|]. split; [reflexivity|]. split; [|reflexivity].
    eexists. repeat split.
  - intros content Hsrc Hsame.
    rewrite (backup_song_same_file _ _ _ _ _ Hsrc Hsame). cbn [fst snd songs files
      backup_sync_log].
    split; [reflexivity|]. split; [reflexivity|]. split; [reflexivity|].
    eexists. repeat split.
  - intros content stored Hsrc Hne Hcopy Hdiff.
    rewrite (backup_song_mismatch _ _ _ _ _ _ Hsrc Hne Hcopy Hdiff). cbn [fst snd songs files
      backup_sync_log].
    split; [reflexivity|]. split; [reflexivity|]. split; [reflexivity|].
    apply lookup_delete_eq.
Qed.

(** A device that runs out of space: the backup fails, the four bytes
    written stay at the destination, and the failure is in the audit log. *)
Example partial_copy_is_left_behind :
  let out := backup_song default_manager full_device_world one_song_store song_a in
  fst out = false /\
  files (snd out) !! "/home/pi/music_backup/a.mp3" = Some "ID3-" /\
  map (fun row => (action row, error_message row)) (backup_sync_log (snd out))
    = [("backup_failed", Some "[Errno 28] No space left on device")] /\
  songs (snd out) = songs one_song_store.
Proof. vm_compute. repeat split. Qed.

Lemma backup_count_mark_exact p c t i l :
  unique_ids l ->
  (exists r, r ∈ l /\ id r = i /\ storage_location r = loc_primary) ->
  backup_count (update_where_id (mark_backed_up p c t) i l) = backup_count l + 1.
Proof.
  unfold unique_ids.
  induction l as [|s l IH]; intros Hnd (r & Hr & Hid & Hloc).
  - now apply not_elem_of_nil in Hr.
  - cbn [map] in Hnd. apply NoDup_cons in Hnd as [Hs Hnd].
    cbn [update_where_id map]. rewrite !backup_count_cons.
    apply elem_of_cons in Hr as [-> | Hr].
    + rewrite bool_decide_eq_true_2 by exact Hid.
      fold (update_where_id (mark_backed_up p c t) i l).
      rewrite <- Hid, (update_where_id_absent _ _ _ Hs).
      change (is_backed_up (mark_backed_up p c t s)) with true.
      unfold is_backed_up. rewrite Hloc.
      rewrite !bool_decide_eq_false_2 by discriminate. cbn [orb]. lia.
    + assert (Hne : id s <> i).
      { intros Heq. apply Hs. rewrite Heq, <- Hid.
        apply list_elem_of_In, in_map, list_elem_of_In, Hr. }
      rewrite bool_decide_eq_false_2 by exact Hne.
      fold (update_where_id (mark_backed_up p c t) i l).
      rewrite IH; [lia|exact Hnd|eauto].
Qed.

Lemma update_where_id_other f i l r :
  r ∈ l -> id r <> i -> r ∈ update_where_id f i l.
Proof.
  intros Hr Hne. unfold update_where_id. apply list_elem_of_In, in_map_iff.
  exists r. split; [now rewrite bool_decide_eq_false_2|now apply list_elem_of_In].
Qed.

Lemma backup_song_failure_songs mgr w st sg st' :
  backup_song mgr w st sg = (false, st') -> songs st' = songs st.
Proof.
  unfold backup_song.
  destruct (files st !! filepath sg); [|now intros [= <-]].
  destruct (if bool_decide _ then _ else _); [|now intros [= <-]].
  destruct (negb _); [now intros [= <-]|discriminate].
Qed.

Lemma candidates_have_distinct_ids mgr st :
  unique_ids (songs st) -> NoDup (map id (get_backup_candidates mgr st)).
Proof.
  unfold unique_ids, get_backup_candidates. intros Hnd.
  set (eligible := filter _ (songs st)).
  assert (Hsub : sql_limit (max_backup_songs mgr) (merge_sort most_played_first eligible)
                 ⊆+ songs st).
  { transitivity (merge_sort most_played_first eligible).
    - apply sublist_submseteq. unfold sql_limit.
      destruct (_ <? 0); [reflexivity|apply sublist_take].
    - transitivity eligible.
      + apply Permutation_submseteq, merge_sort_Permutation.
      + apply sublist_submseteq, sublist_filter. }
  apply submseteq_Permutation in Hsub as (k & Hperm).
  apply (Permutation_map id) in Hperm. rewrite Hperm, map_app in Hnd.
  now apply NoDup_app in Hnd as (Hnd & _).
Qed.

Lemma sync_loop_exact mgr w l : forall res st,
  unique_ids (songs st) -> NoDup (map id l) ->
  (forall sg, sg ∈ l ->
     exists r, r ∈ songs st /\ id r = id sg /\ storage_location r = loc_primary) ->
  total_backup_songs res = backup_count (songs st) ->
  let out := fold_left (sync_step mgr w) l (res, st) in
  total_backup_songs (fst out) = backup_count (songs (snd out)).
Proof.
  induction l as [|sg l IH]; intros res st Hnd Hl Hrows Htot; cbv zeta; [exact Htot|].
  cbn [fold_left]. cbn [map] in Hl. apply NoDup_cons in Hl as [Hsg Hl].
  assert (Hrest : forall sg', sg' ∈ l ->
            exists r, r ∈ songs st /\ id r = id sg' /\ storage_location r = loc_primary)
    by (intros sg' Hin; apply Hrows; now right).
  destruct (sync_step mgr w (res, st) sg) as [res1 st1] eqn:Hstep.
  unfold sync_step in Hstep.
  destruct (max_backup_songs mgr <=? total_backup_songs res);
    [injection Hstep as <- <-; now apply IH|].
  destruct (bool_decide (storage_location sg = loc_both));
    [injection Hstep as <- <-; now apply IH|].
  destruct (backup_song mgr w st sg) as [[] st'] eqn:Hrun; injection Hstep as <- <-.
  - destruct (backup_song_success _ _ _ _ _ Hrun) as (content & stored & _ & _ & _ & Hsongs & _).
    apply IH; [| exact Hl | |].
    + unfold unique_ids. rewrite Hsongs, update_where_id_ids; [exact Hnd|reflexivity].
    + intros sg' Hin. destruct (Hrest sg' Hin) as (r & Hr & Hid & Hloc).
      exists r. split; [|auto]. rewrite Hsongs. apply update_where_id_other; [exact Hr|].
      intros Heq. apply Hsg. rewrite <- Heq, Hid.
      apply list_elem_of_In, in_map, list_elem_of_In, Hin.
    + cbn [total_backup_songs]. rewrite Hsongs, Htot.
      symmetry. apply backup_count_mark_exact; [exact Hnd|]. apply Hrows. now left.
  - apply backup_song_failure_songs in Hrun.
    apply IH; [unfold unique_ids; now rewrite Hrun|exact Hl| |].
    + intros sg' Hin. rewrite Hrun. now apply Hrest.
    + cbn [total_backup_songs]. now rewrite Hrun.
Qed.

(** X23. With unique song ids, the total a run reports is the true one: when
    the run gets past the free-space test, [total_backup_songs] equals the
    number of backed-up songs in the catalog after the run, which is the
    number found on entry plus [backed_up] - the counter the loop compares
    with the bound never drifts from the catalog. *)
Theorem sync_total_is_exact :
  forall mgr w st,
    unique_ids (songs st) ->
    (exists stat, fallback_usage w = Returns stat /\ Qltb (gib (du_free stat)) 1 = false) ->
    let out := sync_backup_storage mgr w st in
    total_backup_songs (fst out) = backup_count (songs (snd out)) /\
    backup_count (songs (snd out)) = backup_count (songs st) + backed_up (fst out).
Proof.
  intros mgr w st Hnd Hspace. cbv zeta.
  assert (Hexact : total_backup_songs (fst (sync_backup_storage mgr w st))
                   = backup_count (songs (snd (sync_backup_storage mgr w st)))).
  { destruct Hspace as (stat & Hstat & Hfree). unfold sync_backup_storage.
    rewrite Hstat, Hfree. cbv zeta. rewrite cleanup_is_noop, Tauto.if_same.
    apply sync_loop_exact;
      [exact Hnd|now apply candidates_have_distinct_ids| |reflexivity].
    intros sg Hin. exists sg.
    apply (proj1 (candidates_are_the_most_played_aux mgr st)) in Hin. tauto. }
  split; [exact Hexact|]. rewrite <- Hexact.
  destruct Hspace as (stat & Hstat & Hfree). unfold sync_backup_storage.
  rewrite Hstat, Hfree. cbv zeta. cbn [total_backup_songs].
  rewrite cleanup_is_noop, Tauto.if_same.
  assert (Hall : Forall (fun sg => storage_location sg = loc_primary)
                   (get_backup_candidates mgr st)).
  { apply Forall_forall. intros s Hs.
    apply (proj1 (candidates_are_the_most_played_aux mgr st)) in Hs. tauto. }
  pose proof (sync_loop_accounting mgr w _
                {| backed_up := 0; failed := 0; skipped := 0;
                   total_backup_songs := backup_count (songs st) |} st Hall) as H.
  cbv zeta in H. cbn [backed_up total_backup_songs] in H. lia.
Qed.

Lemma sync_total_is_exact_witness :
  let out := sync_backup_storage default_manager faithful_world one_song_store in
  total_backup_songs (fst out) = backup_count (songs (snd out)) /\
  backup_count (songs (snd out)) = backup_count (songs one_song_store) + backed_up (fst out).
Proof.
  apply (sync_total_is_exact default_manager faithful_world one_song_store).
  - apply (bool_decide_unpack _). vm_compute. reflexivity.
  - eexists. split; vm_compute; reflexivity.
Defined.

End BackupRunFacts.

(** ** Backup manager: verification after a backup, and verification twice *)
Section VerifyRunFacts.
Import BackupManager BackupFixtures VerifyFixtures.

(** X21. A backup that [backup_song] reports as made passes the next
    integrity verification: the row of the song is among the rows
    [verify_backup_integrity] examines, with the file just written, and is
    classified as verified. *)
Theorem fresh_backup_verifies :
  forall mgr w st sg st' r,
    backup_song mgr w st sg = (true, st') ->
    r ∈ songs st' -> id r = id sg ->
    (r, fallback_file mgr sg) ∈ backup_songs st' /\
    classify w (files st') (r, fallback_file mgr sg) = Verified.
Proof.
  intros mgr w st sg st' r Hrun Hr Hid.
  destruct (backup_song_success _ _ _ _ _ Hrun)
    as (content & stored & _ & _ & Hdig & Hsongs & Hfiles).
  assert (Hfields : storage_location r = loc_both /\
                    fallback_path r = Some (fallback_file mgr sg) /\
                    checksum r = Some (md5_hexdigest w content)).
  { rewrite Hsongs in Hr. apply elem_of_update_where_id in Hr as (r0 & _ & ->).
    case_bool_decide as Hm; [now repeat split|]. contradiction. }
  destruct Hfields as (Hloc & Hpath & Hsum). split.
  - apply backup_songs_elem. auto.
  - unfold classify. cbn [fst snd]. rewrite Hfiles, lookup_insert_eq.
    unfold stored_checksum. rewrite Hsum.
    case_bool_decide; [reflexivity|].
    now rewrite Hdig, String.eqb_refl.
Qed.

Lemma fresh_backup_verifies_witness :
  let st' := snd (backup_song default_manager faithful_world one_song_store song_a) in
  exists r,
    songs st' = [r] /\
    (r, fallback_file default_manager song_a) ∈ backup_songs st' /\
    classify faithful_world (files st') (r, fallback_file default_manager song_a)
    = Verified.
Proof.
  cbv zeta. eexists. split; [vm_compute; reflexivity|].
  apply (fresh_backup_verifies default_manager faithful_world one_song_store song_a
           (snd (backup_song default_manager faithful_world one_song_store song_a))).
  - vm_compute. reflexivity.
  - vm_compute. constructor.
  - vm_compute. reflexivity.
Defined.

Lemma omap_cons_eq {A B} (f : A -> option B) x l :
  omap f (x :: l) = match f x with Some y => y :: omap f l | None => omap f l end.
Proof. reflexivity. Qed.

Lemma count_verdict_filtered w fs v l :
  count_verdict w fs v (filter (fun sp => classify w fs sp <> Missing) l)
  = if bool_decide (v = Missing) then 0 else count_verdict w fs v l.
Proof.
  induction l as [|sp l IH].
  - unfold count_verdict. cbn. now case_bool_decide.
  - rewrite filter_cons.
    destruct (decide (classify w fs sp <> Missing)) as [Hc|Hc].
    + rewrite !count_verdict_cons, IH.
      repeat case_bool_decide; try lia; congruence.
    + rewrite count_verdict_cons, IH.
      apply dec_stable in Hc.
      repeat case_bool_decide; try lia; congruence.
Qed.

Lemma missing_ids_filtered w fs l :
  missing_ids w fs (filter (fun sp => classify w fs sp <> Missing) l) = [].
Proof.
  unfold missing_ids. induction l as [|sp l IH]; [reflexivity|].
  rewrite filter_cons.
  destruct (decide (classify w fs sp <> Missing)) as [Hc|Hc]; [|exact IH].
  rewrite filter_cons.
  destruct (decide (classify w fs sp = Missing)) as [Hm|Hm]; [contradiction|exact IH].
Qed.

(** The rows examined once the records of the missing backups have been
    demoted: the rows examined before, without the missing ones. *)
Lemma backup_songs_after_verify w st :
  unique_ids (songs st) ->
  backup_songs (snd (verify_backup_integrity w st))
  = filter (fun sp => classify w (files st) sp <> Missing) (backup_songs st).
Proof.
  intros Hnd. rewrite verify_backup_integrity_eq. cbn [snd].
  unfold backup_songs at 1 3. cbn [songs].
  set (M := missing_ids w (files st) (backup_songs st)).
  assert (Hgen : forall l, (forall s, s ∈ l -> s ∈ songs st) ->
            omap (fun s => if is_backed_up s
                           then (fun p => (s, p)) <$> fallback_path s else None)
                 (map (fun s => if bool_decide (id s ∈ M) then demote_missing s else s) l)
            = filter (fun sp => classify w (files st) sp <> Missing)
                (omap (fun s => if is_backed_up s
                                then (fun p => (s, p)) <$> fallback_path s else None) l)).
  { induction l as [|s l IH]; intros Hsub; [reflexivity|].
    assert (Hs : s ∈ songs st) by (apply Hsub; left).
    assert (Hl : forall x, x ∈ l -> x ∈ songs st) by (intros x Hx; apply Hsub; now right).
    specialize (IH Hl). cbn [map]. rewrite !omap_cons_eq, IH.
    case_bool_decide as HM.
    - change (is_backed_up (demote_missing s)) with false. cbv iota.
      apply missing_ids_elem in HM as ([s' p'] & Hsp' & Hc' & Hid').
      cbn [fst] in Hid'.
      pose proof (proj1 (backup_songs_elem _ _ _) Hsp') as (Hs' & Hloc' & Hp').
      assert (s' = s) as -> by (eapply unique_ids_same; eauto).
      assert (Hb : is_backed_up s = true).
      { unfold is_backed_up. destruct Hloc' as [-> | ->]; reflexivity. }
      rewrite Hb, Hp'. cbn [fmap option_fmap option_map].
      rewrite filter_cons.
      destruct (decide (classify w (files st) (s, p') <> Missing)) as [Hc|Hc];
        [contradiction|reflexivity].
    - destruct (is_backed_up s) eqn:Hb; [|reflexivity].
      destruct (fallback_path s) as [p|] eqn:Hp; [|reflexivity].
      cbn [fmap option_fmap option_map].
      rewrite filter_cons.
      destruct (decide (classify w (files st) (s, p) <> Missing)) as [Hc|Hc];
        [reflexivity|].
      apply dec_stable in Hc.
      exfalso. apply HM. apply missing_ids_elem. exists (s, p).
      split; [|split; [exact Hc|reflexivity]].
      apply backup_songs_elem. repeat split; [exact Hs| |exact Hp].
      unfold is_backed_up in Hb. apply orb_true_iff in Hb as [Hb|Hb];
        apply bool_decide_eq_true in Hb; auto. }
  apply Hgen. auto.
Qed.

(** X22. With unique song ids, verifying twice changes nothing more: the
    second run finds no missing backup (the records of the missing ones
    were demoted by the first), reports the same verified and corrupted
    counts and leaves the store as the first run left it - a corrupted
    backup is reported again on every run. *)
Theorem verify_twice :
  forall w st,
    unique_ids (songs st) ->
    let first := verify_backup_integrity w st in
    let second := verify_backup_integrity w (snd first) in
    snd second = snd first /\
    missing (fst second) = 0 /\
    corrupted (fst second) = corrupted (fst first) /\
    verified (fst second) = verified (fst first).
Proof.
  intros w st Hnd. cbv zeta.
  pose proof (backup_songs_after_verify w st Hnd) as Hsel.
  rewrite (verify_backup_integrity_eq w (snd _)).
  assert (Hfiles : files (snd (verify_backup_integrity w st)) = files st)
    by now rewrite verify_backup_integrity_eq.
  rewrite Hsel, Hfiles, !count_verdict_filtered, missing_ids_filtered.
  cbn [fst snd missing corrupted verified].
  rewrite (verify_backup_integrity_eq w st). cbn [fst snd missing corrupted verified songs
    files backup_sync_log].
  repeat split.
  f_equal. rewrite <- (map_id (map _ (songs st))) at 2.
  apply map_ext. intros s. reflexivity.
Qed.

Lemma verify_twice_witness :
  let first := verify_backup_integrity faithful_world mixed_store in
  let second := verify_backup_integrity faithful_world (snd first) in
  snd second = snd first /\
  missing (fst second) = 0 /\
  corrupted (fst second) = corrupted (fst first) /\
  verified (fst second) = verified (fst first).
Proof.
  apply (verify_twice faithful_world mixed_store).
  apply (bool_decide_unpack _). vm_compute. reflexivity.
Defined.

End VerifyRunFacts.

(** ** Reports read from the tables *)
Section ReportFacts.
Import StorageHealthChecker Supervision HealthFixtures.

(** [dict] of a fetched row with at least one column: the columns when the
    connection has a row factory, an exception when it has none. *)
Lemma py_dict_fetchone row_factory c columns :
  py_dict (fetchone row_factory (c :: columns))
  = if row_factory then Returns (c :: columns)
    else Raises "cannot convert dictionary update sequence element #0 to a sequence".
Proof. now destruct row_factory. Qed.

(** X24. [get_storage_metrics] never returns metrics: its connection sets
    no row factory, so the row of event counts is a tuple, [dict] of it
    raises and the handler returns the empty dict - whatever the state of
    the endpoints, the events logged and the monitoring flag. *)
Theorem storage_metrics_always_empty :
  forall os m older is_monitoring,
    StorageMonitor.get_storage_metrics os m older is_monitoring = None.
Proof.
  intros os m older is_monitoring. unfold StorageMonitor.get_storage_metrics.
  cbv zeta. now rewrite py_dict_fetchone.
Qed.

(** X25. [get_backup_status] never returns statistics: the row of song
    counts is fetched as a tuple, [dict] of it raises before the disk usage
    is read, and the handler returns the empty dict - whatever the catalog
    and the state of the two volumes. *)
Theorem backup_status_always_empty :
  forall w primary_usage st,
    BackupManager.get_backup_status w primary_usage st = None.
Proof.
  intros w primary_usage st. unfold BackupManager.get_backup_status.
  cbv zeta. now rewrite py_dict_fetchone.
Qed.

Lemma filter_none {A} (P : A -> Prop) `{forall x, Decision (P x)} (l : list A) :
  Forall (fun x => ~ P x) l -> filter P l = [].
Proof.
  induction 1 as [|x l Hx _ IH]; [reflexivity|].
  rewrite filter_cons. now destruct (decide (P x)).
Qed.

Lemma typed_rows_log os db t r :
  typed_rows db -> parse_kind t <> None ->
  typed_rows (_log_health_check_results os db t r).
Proof.
  intros [Hc Ha] Ht. unfold _log_health_check_results.
  destruct (_ && _); [|now split].
  split; cbn; apply Forall_app; split; try assumption;
    apply List.Forall_map, Forall_true; intros ?; exact Ht.
Qed.

(** A health check leaves the tables as they are or appends the rows of
    its report, under the storage type it was asked for. *)
Lemma perform_tables cfg os probes db t :
  snd (perform_comprehensive_health_check cfg os probes db t) = db \/
  exists r,
    parse_kind t <> None /\
    snd (perform_comprehensive_health_check cfg os probes db t)
    = _log_health_check_results os db t r.
Proof.
  unfold perform_comprehensive_health_check.
  destruct (parse_kind t) as [k|] eqn:Hk; [|now left]. cbv zeta.
  destruct (negb (passed (_check_storage_availability _ _ _))); [now left|].
  destruct (space_step _ _); [|now left].
  destruct (music_step _ _); [|now left].
  right. eexists. split; [discriminate|reflexivity].
Qed.

Lemma checks_run_typed cfg requests : forall db,
  typed_rows db -> typed_rows (checks_run cfg requests db).
Proof.
  induction requests as [|q requests IH]; intros db Hdb; [exact Hdb|].
  unfold checks_run. cbn [fold_left]. apply IH.
  destruct q as [[os probes] t]. cbn [fst snd].
  destruct (perform_tables cfg os probes db t) as [Heq | (r & Ht & Heq)];
    rewrite Heq; [exact Hdb|now apply typed_rows_log].
Qed.

Lemma history_of_a_folder newest_first db older_checks older_alerts path hours :
  (forall A (l : list A), newest_first A l ≡ₚ l) ->
  typed_rows db -> parse_kind path = None ->
  empty_history (get_health_history newest_first db older_checks older_alerts path hours).
Proof.
  intros Hperm [Hc Ha] Hpath.
  assert (Hnil : forall A, newest_first A [] = [])
    by (intros A; apply Permutation_nil_r, Hperm).
  unfold empty_history, get_health_history.
  cbn [hh_health_checks hh_alerts total_checks total_alerts].
  rewrite !filter_none, !Hnil; [now repeat split| |].
  - apply Forall_drop. eapply Forall_impl; [exact Ha|].
    intros r Hr Heq. cbn beta in Hr, Heq. now rewrite Heq in Hr.
  - apply Forall_drop. eapply Forall_impl; [exact Hc|].
    intros r Hr Heq. cbn beta in Hr, Heq. now rewrite Heq in Hr.
Qed.

(** X26. The health history asked through the monitor is always empty.
    The health checker files its rows under the storage types ['primary']
    and ['fallback'], and the monitor asks for the rows filed under the
    folder of the endpoint; so, unless a folder is itself named
    [primary] or [fallback], no series of health checks makes
    [get_storage_health_history] return a row, for any argument and any
    period. *)
Theorem history_through_monitor_is_empty :
  forall newest_first cfg db requests older_checks older_alerts storage_type hours,
    (forall A (l : list A), newest_first A l ≡ₚ l) ->
    typed_rows db ->
    parse_kind (SYNCED_FOLDER cfg) = None ->
    parse_kind (BACKUP_FOLDER cfg) = None ->
    match get_storage_health_history newest_first cfg (checks_run cfg requests db)
            older_checks older_alerts storage_type hours with
    | HistoryOf h => empty_history h
    | HistoryOfBoth of_primary of_fallback =>
      empty_history of_primary /\ empty_history of_fallback
    end.
Proof.
  intros newest_first cfg db requests oc oa storage_type hours Hperm Hdb Hp Hf.
  pose proof (checks_run_typed cfg requests db Hdb) as Htyped.
  unfold get_storage_health_history.
  destruct (storage_type ≫= parse_kind) as [[]|];
    [| |split]; now apply history_of_a_folder.
Qed.

Lemma history_through_monitor_is_empty_witness :
  match get_storage_health_history (fun A => @rev A) default_config
          (checks_run default_config
             [((Fixtures.os_both_ok, fun _ => probe_all_fine), "primary")] empty_db)
          0 0 (Some "primary") 24 with
  | HistoryOf h => empty_history h
  | HistoryOfBoth of_primary of_fallback =>
    empty_history of_primary /\ empty_history of_fallback
  end.
Proof.
  apply (history_through_monitor_is_empty (fun A => @rev A) default_config empty_db
           [((Fixtures.os_both_ok, fun _ => probe_all_fine), "primary")]
           0 0 (Some "primary") 24).
  - intros A l. symmetry. apply Permutation_rev.
  - split; constructor.
  - reflexivity.
  - reflexivity.
Defined.

(** That health check did file its rows: five checks, under
    ['primary']. *)
Example rows_filed_under_primary :
  map hcr_storage_type
    (storage_health_checks
       (checks_run default_config
          [((Fixtures.os_both_ok, fun _ => probe_all_fine), "primary")] empty_db))
  = ["primary"; "primary"; "primary"; "primary"; "primary"].
Proof. vm_compute. reflexivity. Qed.

End ReportFacts.
